(** * streaming-server: the socket connection handler

    A shallow embedding of [pkg/socket/handler.go] and of the helpers of
    [pkg/socket/util] it calls ([UpdateClientUsername],
    [GetRoomNameFromRequest]), with the properties of the command parser,
    the room selection, the username registry and the resync callback. *)

From Stdlib Require Import ZArith Lia Ascii String.
From stdpp Require Import base option list gmap strings.

Set Default Proof Using "Type".

Open Scope string_scope.
Open Scope list_scope.

(** ** Go's [strings] package, as far as the handler uses it *)

Module strings.

(** [s[:m]] and [s[m:]] on a Go string (a sequence of bytes). *)
Fixpoint slice_to (m : nat) (s : string) : string :=
  match m, s with
  | S m', String a s' => String a (slice_to m' s')
  | _, _ => ""
  end.

Fixpoint slice_from (m : nat) (s : string) : string :=
  match m, s with
  | S m', String _ s' => slice_from m' s'
  | _, _ => s
  end.

(** [strings.HasPrefix]: [s] begins with [pre]. *)
Fixpoint HasPrefix (s pre : string) {struct pre} : bool :=
  match pre, s with
  | EmptyString, _ => true
  | String a pre', String b s' => Ascii.eqb a b && HasPrefix s' pre'
  | String _ _, EmptyString => false
  end.

(** [strings.Index]: the byte offset of the first occurrence of [substr]
    in [s]; Go's [-1] is [None]. *)
Fixpoint Index (s substr : string) {struct s} : option nat :=
  if HasPrefix s substr then Some 0
  else match s with
       | EmptyString => None
       | String _ s' => S <$> Index s' substr
       end.

(** The loop of [genSplit]: cut at the first occurrence of [sep], continue
    behind it.  One iteration per occurrence; [fuel] bounds the iterations. *)
Fixpoint genSplit (fuel : nat) (s sep : string) : list string :=
  match fuel with
  | 0 => [s]
  | S fuel' =>
      match Index s sep with
      | None => [s]
      | Some m => slice_to m s :: genSplit fuel' (slice_from (m + String.length sep) s) sep
      end
  end.

(** [explode]: an empty separator splits after each byte (each UTF-8
    sequence in Go; the handler only ever passes a constant separator). *)
Fixpoint explode (s : string) : list string :=
  match s with
  | EmptyString => []
  | String a s' => String a "" :: explode s'
  end.

Definition Split (s sep : string) : list string :=
  match sep with
  | EmptyString => explode s
  | _ => genSplit (String.length s) s sep
  end.

(** [strings.Join]. *)
Fixpoint Join (elems : list string) (sep : string) : string :=
  match elems with
  | [] => ""
  | [x] => x
  | x :: rest => x +:+ sep +:+ Join rest sep
  end.

(** [sep] occurs somewhere in [s]. *)
Definition Contains (s sep : string) : Prop :=
  ∃ p q, s = p +:+ sep +:+ q.

(** The leftmost occurrence of [sep] in [s] starts right after [pre]. *)
Definition FirstAfter (s pre sep : string) : Prop :=
  (∃ q, s = pre +:+ sep +:+ q) ∧
  ∀ p q, s = p +:+ sep +:+ q → (String.length pre ≤ String.length p)%nat.

End strings.

(** ** Go's [fmt] verbs, as far as the error messages use them *)

Module fmt.

Definition dquote : string := String (Ascii.ascii_of_nat 34) "".

(** [%q] puts the argument between double quotes (the escaping of special
    bytes inside is left out); [%s] and [%v] insert it as it is. *)
Fixpoint Sprintf (format : string) (args : list string) : string :=
  match format with
  | String a rest0 =>
      match Ascii.eqb a "%"%char, rest0, args with
      | true, String verb rest, x :: args' =>
          (if Ascii.eqb verb "q"%char then dquote +:+ x +:+ dquote else x)
            +:+ Sprintf rest args'
      | _, _, _ => String a (Sprintf rest0 args)
      end
  | EmptyString => ""
  end.

End fmt.

(** A Go [error] is carried by its message. *)
Definition error : Type := string.
Definition Errorf (format : string) (args : list string) : error := fmt.Sprintf format args.
Arguments Errorf : simpl never.

(** ** Data model *)

(** A value of a decoded [map[string]interface{}] payload. *)
Inductive Value : Type :=
| VString (s : string)
| VNumber (n : Z)
| VBool (b : bool)
| VNull.

#[global] Instance Value_eq_dec : EqDecision Value.
Proof. solve_decision. Defined.

(** Modelled from the spec: [client.Client] is declared in
    [pkg/socket/client], which is missing; a client has its connection
    identifier, an optional username and an optional room. *)
Record Client : Type := mkClient {
  client_id : string;
  client_username : option string;
  client_room : option string;
}.

(** Modelled from the spec: the stream descriptor of [pkg/stream] is
    missing; it has a source URL and display metadata. *)
Record Stream : Type := mkStream {
  stream_url : string;
  stream_info : gmap string Value;
}.

(** The closure that [RegisterClient] passes to [OnTick]: it captures the
    room name and the client that created the room (the captured socket is
    that client's connection, its identifier is the client's address). *)
Inductive TickCallback : Type :=
| StreamsyncTick (roomName : string) (c : string).

(** Modelled from the spec: [playback.StreamPlayback] is missing; a
    playback state has an optional loaded stream, the elapsed position, the
    play flag and its tick listeners in registration order. *)
Record StreamPlayback : Type := mkStreamPlayback {
  pb_stream : option Stream;
  pb_time : Z;
  pb_playing : bool;
  pb_callbacks : list TickCallback;
}.

(** Modelled from the spec: the snapshot that [GetStatus] returns, a view
    of the loaded stream metadata, the position and the play flag. *)
Record Status : Type := mkStatus {
  status_stream : option (gmap string Value);
  status_time : Z;
  status_playing : bool;
}.

(** The [Extra interface{}] field of a response. *)
Inductive Extra : Type :=
| NoExtra
| ExtraStatus (s : Status)
| ExtraInfo (info : gmap string Value)
| ExtraFields (fields : gmap string Value).

(** [client.Response], with the fields the handler sets. *)
Record Response : Type := mkResponse {
  Id : string;
  From : string;
  Extra_ : Extra;
  IsSystem : bool;
}.

(** The [*http.Request] of a connection, with what the handler reads. *)
Record Request : Type := mkRequest {
  URL : string;
  Referer : string;
}.

(** The connecting socket: its identifier and its request. *)
Record Socket : Type := mkSocket {
  socket_id : string;
  socket_request : Request;
}.

(** What goes out of the handler: log lines and calls of the client's
    broadcast methods.  A log line is recorded with its level and the
    constant text of its format string, the formatted arguments left out.  A
    broadcast is recorded with the method's addressing, the client it was
    called on, the message and the connections it is delivered to at that
    moment. *)
Inductive LogLevel : Type := INFO | INF | WARN | ERR.

Inductive Addressing : Type :=
| To      (* c.BroadcastTo, c.BroadcastSystemMessageTo, c.BroadcastErrorTo *)
| From_   (* c.BroadcastFrom *)
| All.    (* c.BroadcastAll *)

Inductive Message : Type :=
| Event (evt : string) (data : Response)
| SystemText (text : string)
| ErrorText (err : error).

Inductive Effect : Type :=
| Log (lvl : LogLevel) (line : string)
| Broadcast (how : Addressing) (c : string) (msg : Message) (recipients : list string).

(** The handler's stores.  [objects] is the heap of client structs, addressed
    by the connection identifier (a [*client.Client] is such an address);
    [registry] is the set of addresses the client handler currently maps;
    [playbacks] maps a room name to its playback state. *)
Record Server : Type := mkServer {
  objects : gmap string Client;
  registry : gset string;
  playbacks : gmap string StreamPlayback;
}.

(** ** Outcomes and the handler monad *)

(** A Go call returns or panics. *)
Inductive outcome (A : Type) : Type :=
| Ret (a : A)
| Panic (msg : string).
Arguments Ret {A} a.
Arguments Panic {A} msg.

(** A run from a state: the state it leaves, what it emitted, and how it
    ended.  State and emissions of a run that panics are kept. *)
Record Run (A : Type) : Type := mkRun {
  post : Server;
  trace : list Effect;
  result : outcome A;
}.
Arguments mkRun {A} post trace result.
Arguments post {A} r.
Arguments trace {A} r.
Arguments result {A} r.

Definition M (A : Type) : Type := Server → Run A.

Definition ret {A} (a : A) : M A := λ st, mkRun st [] (Ret a).

Definition bind {A B} (m : M A) (f : A → M B) : M B := λ st,
  match m st with
  | mkRun st1 t1 (Ret a) =>
      match f a st1 with
      | mkRun st2 t2 r => mkRun st2 (t1 ++ t2) r
      end
  | mkRun st1 t1 (Panic e) => mkRun st1 t1 (Panic e)
  end.

Notation "'do' x <- m ; k" := (bind m (λ x, k))
  (at level 10, x name, m at level 100, k at level 200).
Notation "'do' ' p <- m ; k" := (bind m (λ x, match x with p => k end))
  (at level 10, p pattern, m at level 100, k at level 200).
Notation "m ;; k" := (bind m (λ _, k))
  (at level 100, k at level 200, right associativity).

Definition gets {A} (f : Server → A) : M A := λ st, mkRun st [] (Ret (f st)).
Definition modify (f : Server → Server) : M unit := λ st, mkRun (f st) [] (Ret tt).
Definition emit (e : Effect) : M unit := λ st, mkRun st [e] (Ret tt).
Definition panic {A} (msg : string) : M A := λ st, mkRun st [] (Panic msg).
Definition lift {A} (o : outcome A) : M A := λ st, mkRun st [] o.
Definition log (lvl : LogLevel) (line : string) : M unit := emit (Log lvl line).

(** ** Constants *)

Definition ROOM_DEFAULT_LOBBY : string := "lobby".
Definition ROOM_DEFAULT_STREAMSYNC_RATE : Z := 30.
Definition ROOM_URL_SEGMENT : string := "/v/".

(** ** The client object, the client registry and the playback store

    These live in [pkg/socket/client] and [pkg/playback], which are
    missing; each operation below is modelled from the spec. *)

(** Modelled from the spec: reading a client struct through its pointer
    ([client.Client], missing); a pointer into nothing is Go's nil
    dereference. *)
Definition load (c : string) : M Client := λ st,
  match objects st !! c with
  | Some x => mkRun st [] (Ret x)
  | None => mkRun st [] (Panic "invalid memory address or nil pointer dereference")
  end.

Definition store (c : string) (x : Client) : M unit :=
  modify (λ st, mkServer (<[c := x]> (objects st)) (registry st) (playbacks st)).

(** Modelled from the spec: [c.GetUsername()] of the missing client
    package, the optional username as Go's value and presence flag. *)
Definition GetUsername (c : string) : M (string * bool) :=
  do x <- load c;
  ret (match client_username x with Some n => (n, true) | None => ("", false) end).

(** Modelled from the spec: [c.GetRoom()] of the missing client package. *)
Definition GetRoom (c : string) : M (string * bool) :=
  do x <- load c;
  ret (match client_room x with Some r => (r, true) | None => ("", false) end).

(** Modelled from the spec: [c.GetId()] and [c.UUID()] of the missing
    client package, the immutable connection identifier. *)
Definition GetId (c : string) : M string :=
  do x <- load c; ret (client_id x).

(** Modelled from the spec: [c.JoinRoom(roomName)] of the missing client
    package sets the room the client is in. *)
Definition JoinRoom (c : string) (roomName : string) : M unit :=
  do x <- load c;
  store c (mkClient (client_id x) (client_username x) (Some roomName)).

(** Modelled from the spec: the registered clients whose room is
    [roomName] (room membership is derived by scanning the clients). *)
Definition in_room (st : Server) (roomName : string) : list string :=
  filter (λ id, client_room <$> objects st !! id = Some (Some roomName))
         (elements (registry st)).

(** Modelled from the spec: the broadcast methods of the missing client
    package.  [BroadcastTo] delivers to the client alone, [BroadcastFrom] to
    every client of its room except itself (nothing when it has no room),
    [BroadcastAll] to every client of its room; the system and error
    messages are sender-only. *)
Definition BroadcastTo (c : string) (evt : string) (data : Response) : M unit :=
  emit (Broadcast To c (Event evt data) [c]).

Definition BroadcastFrom (c : string) (evt : string) (data : Response) : M unit :=
  do x <- load c;
  match client_room x with
  | Some r =>
      do rs <- gets (λ st, filter (λ id, id ≠ c) (in_room st r));
      emit (Broadcast From_ c (Event evt data) rs)
  | None => ret tt
  end.

Definition BroadcastAll (c : string) (evt : string) (data : Response) : M unit :=
  do x <- load c;
  match client_room x with
  | Some r =>
      do rs <- gets (λ st, in_room st r);
      emit (Broadcast All c (Event evt data) rs)
  | None => ret tt
  end.

Definition BroadcastSystemMessageTo (c : string) (text : string) : M unit :=
  emit (Broadcast To c (SystemText text) [c]).

Definition BroadcastErrorTo (c : string) (err : error) : M unit :=
  emit (Broadcast To c (ErrorText err) [c]).

(** Modelled from the spec: the client handler (registry) of the missing
    client package.  [CreateClient] allocates the client struct of a
    connection and registers it; [GetClient] finds a registered client or
    reports it missing ([None] is Go's [nil, err]); [DestroyClient]
    unregisters, the struct stays reachable from whoever holds it. *)
Definition CreateClient (conn : Socket) : M string :=
  modify (λ st, mkServer (<[socket_id conn := mkClient (socket_id conn) None None]> (objects st))
                         ({[socket_id conn]} ∪ registry st) (playbacks st));;
  ret (socket_id conn).

Definition ErrClientNotFound (id : string) : error :=
  Errorf "error: unable to find client with id %q" [id].

Definition GetClient (id : string) : M (option string) :=
  gets (λ st, if decide (id ∈ registry st) then Some id else None).

Definition GetClients : M (list string) :=
  gets (λ st, elements (registry st)).

Definition GetClientSize : M nat :=
  gets (λ st, size (registry st)).

Definition DestroyClient (conn : Socket) : M (option error) := λ st,
  if decide (socket_id conn ∈ registry st)
  then mkRun (mkServer (objects st) (registry st ∖ {[socket_id conn]}) (playbacks st)) [] (Ret None)
  else mkRun st [] (Ret (Some (ErrClientNotFound (socket_id conn)))).

(** Modelled from the spec: the playback handler of the missing playback
    package.  A [*StreamPlayback] is addressed by its room name; [None] is
    the [nil, false] of a room without playback state.  A new playback state
    is empty, paused, at position zero and has no tick listener; [OnTick]
    appends a listener. *)
Definition GetStreamPlayback (roomName : string) : M (option string) :=
  gets (λ st, match playbacks st !! roomName with Some _ => Some roomName | None => None end).

Definition NewStreamPlayback (roomName : string) : M string :=
  modify (λ st, mkServer (objects st) (registry st)
                         (<[roomName := mkStreamPlayback None 0 false []]> (playbacks st)));;
  ret roomName.

Definition OnTick (sPlayback : string) (callback : TickCallback) : M unit :=
  modify (λ st, mkServer (objects st) (registry st)
    (alter (λ pb, mkStreamPlayback (pb_stream pb) (pb_time pb) (pb_playing pb)
                                   (pb_callbacks pb ++ [callback]))
           sPlayback (playbacks st))).

Definition loadPlayback (sPlayback : string) : M StreamPlayback := λ st,
  match playbacks st !! sPlayback with
  | Some pb => mkRun st [] (Ret pb)
  | None => mkRun st [] (Panic "invalid memory address or nil pointer dereference")
  end.

Definition GetStream (sPlayback : string) : M (option Stream) :=
  do pb <- loadPlayback sPlayback; ret (pb_stream pb).

Definition statusOf (pb : StreamPlayback) : Status :=
  mkStatus (stream_info <$> pb_stream pb) (pb_time pb) (pb_playing pb).

(** [a[i]] on a Go slice: a panic when [i] is out of range. *)
Definition index_slice {A} (a : list A) (i : nat) : M A :=
  match a !! i with
  | Some x => ret x
  | None => panic "index out of range"
  end.

(** ** [pkg/api/endpoint]: how the endpoints route a request

    What a handler does with the response writer is one of the calls below;
    the calls themselves go to the network and are not modelled further. *)

Module endpoint.

Inductive Reply : Type :=
| EndpointError (err : error)               (* HandleEndpointError(err, w) *)
| SoundCloudApiSearch (query : string)      (* handleSoundCloudApiSearch(query, w) *)
| SoundCloudApiStream (rawPermalink : string) (* handleSoundCloudApiStream(rawPermalink, w) *)
| ApiSearch (searchQuery : string).         (* handleApiSearch(searchQuery, w) *)

(** [a[i]] and [a[i:]] on a Go slice, with their bounds checks. *)
Definition at_index {A} (a : list A) (i : nat) : outcome A :=
  match a !! i with
  | Some x => Ret x
  | None => Panic "index out of range"
  end.

Definition slice_list_from {A} (a : list A) (i : nat) : outcome (list A) :=
  if (i <=? length a)%nat then Ret (drop i a) else Panic "slice bounds out of range".

Definition and_then {A B} (o : outcome A) (k : A → outcome B) : outcome B :=
  match o with
  | Ret a => k a
  | Panic msg => Panic msg
  end.

(** [SoundCloudEndpoint.Handle], on the routed segments and [r.URL.String()]. *)
Definition SoundCloudEndpoint_Handle (segments : list string) (url : string) : outcome Reply :=
  if (length segments <? 2)%nat
  then Ret (EndpointError (Errorf "unimplemented endpoint" []))
  else
    let segments := strings.Split url "/" in
    and_then (slice_list_from segments 2) (λ segments,
    and_then (at_index segments 1) (λ seg1,
    if String.eqb seg1 "search"
    then
      if (length segments <? 3)%nat
      then Ret (EndpointError (Errorf "not enough arguments: /seatch/term" []))
      else and_then (at_index segments 2) (λ seg2, Ret (SoundCloudApiSearch seg2))
    else if String.eqb seg1 "stream"
    then
      if (length segments <? 3)%nat
      then Ret (EndpointError (Errorf "not enough arguments: /stream/url" []))
      else and_then (slice_list_from segments 2) (λ tail,
           Ret (SoundCloudApiStream (strings.Join tail "/")))
    else Ret (EndpointError (Errorf "unimplemented parameter" [])))).

(** [YoutubeEndpoint.Handle], on the routed segments. *)
Definition YoutubeEndpoint_Handle (segments : list string) : outcome Reply :=
  and_then (at_index segments 1) (λ seg1,
  if String.eqb seg1 "search"
  then
    if (length segments <? 3)%nat
    then Ret (EndpointError (Errorf "not enough arguments: /search/query" []))
    else and_then (at_index segments 2) (λ seg2, Ret (ApiSearch seg2))
  else Ret (EndpointError (Errorf "unimplemented parameter" []))).

(** The number of bytes [c] in [s]. *)
Fixpoint count_byte (c : ascii) (s : string) : nat :=
  match s with
  | EmptyString => 0
  | String a s' => (if Ascii.eqb a c then 1 else 0) + count_byte c s'
  end.

End endpoint.

(** ** Example inputs

    A small server to run the handler on: two sockets whose requests lead
    to room ["x"], and states of the stores. *)

Definition request_x : Request := mkRequest "http://localhost:8080/v/x" "".
Definition socket_A : Socket := mkSocket "A" request_x.
Definition socket_B : Socket := mkSocket "B" request_x.

Definition accept_any (name : string) : option error := None.

Definition unknown_command (name : string) (args : list string) (c : string)
  : M (string * option error) :=
  ret ("", Some (Errorf "error: unknown command %q" [name])).

(** A command that moves the playback position of room ["x"] to 99, tells
    the room of its client so through the client it is handed, and returns
    a text. *)
Definition seek_command (name : string) (args : list string) (c : string)
  : M (string * option error) :=
  modify (λ st, mkServer (objects st) (registry st)
            (alter (λ pb, mkStreamPlayback (pb_stream pb) 99 (pb_playing pb) (pb_callbacks pb))
                   "x" (playbacks st)));;
  BroadcastAll c "streamsync" (mkResponse c "" NoExtra false);;
  ret ("position set", None).

Definition plain_response (data : gmap string Value) : Response :=
  mkResponse "" "" (ExtraFields data) false.

Definition refuse_any (name : string) : option error := Some "error: invalid username".

(** A connection the example servers do not know. *)
Definition socket_Z : Socket := mkSocket "Z" request_x.

(** No client, no room. *)
Definition server_empty : Server := mkServer ∅ ∅ ∅.

(** Client A is registered in room ["x"], for which no playback state
    exists. *)
Definition server_no_playback : Server :=
  mkServer {[ "A" := mkClient "A" None (Some "x") ]} {[ "A" ]} ∅.

(** Clients A and B are registered in room ["x"], which A created. *)
Definition server_room_x : Server :=
  mkServer (<[ "A" := mkClient "A" None (Some "x") ]>
            (<[ "B" := mkClient "B" None (Some "x") ]> ∅))
           ({[ "A" ]} ∪ {[ "B" ]})
           {[ "x" := mkStreamPlayback None 0 false [StreamsyncTick "x" "A"] ]}.

(** Client A is registered in room ["x"], where a stream is loaded. *)
Definition playback_streaming : StreamPlayback :=
  mkStreamPlayback
    (Some (mkStream "http://media.example/clip.mp4" {[ "title" := VString "clip" ]}))
    42 true [StreamsyncTick "x" "A"].

Definition server_streaming : Server :=
  mkServer {[ "A" := mkClient "A" None (Some "x") ]} {[ "A" ]}
           {[ "x" := playback_streaming ]}.

(** ** The handler *)

Section Handler.

(** The collaborators whose code decides nothing here are parameters:
    [validation.ValidateClientUsername]; the refusal, if any, of
    [client.Client.UpdateUsername]; [cmd.SocketCommandHandler.ExecuteCommand];
    [client.ResponseFromClientData]; and what the missing methods do when
    called on a nil pointer, [GetStatus] on a nil [*StreamPlayback] and
    [BroadcastErrorTo] on a nil [*Client]. *)
Variable ValidateClientUsername : string → option error.
Variable UpdateUsername_refuses : string → option error.
Variable ExecuteCommand : string → list string → string → M (string * option error).
Variable ResponseFromClientData : gmap string Value → Response.
Variable GetStatus_nil : outcome Status.
Variable BroadcastErrorTo_nil : outcome unit.

(** Modelled from the spec: [c.UpdateUsername(username)] of the missing
    client package mutates the username in place, unless it refuses the
    name. *)
Definition UpdateUsername (c : string) (username : string) : M (option error) :=
  match UpdateUsername_refuses username with
  | Some err => ret (Some err)
  | None =>
      do x <- load c;
      store c (mkClient (client_id x) (Some username) (client_room x));;
      ret None
  end.

(** Modelled from the spec: [sPlayback.GetStatus()] of the missing playback
    package, the snapshot of the playback state behind the pointer. *)
Definition GetStatus (sPlayback : option string) : M Status :=
  match sPlayback with
  | Some p => do pb <- loadPlayback p; ret (statusOf pb)
  | None => lift GetStatus_nil
  end.

(** *** [pkg/socket/util] *)

(** The loop of [UpdateClientUsername] over [clientHandler.GetClients()]:
    [true] is its early return with the "taken" error. *)
Fixpoint usernameTaken (username : string) (clients : list string) : M bool :=
  match clients with
  | [] => ret false
  | otherUser :: rest =>
      do ' (otherUserName, hasName) <- GetUsername otherUser;
      if negb hasName then usernameTaken username rest
      else if String.eqb username otherUserName then ret true
      else usernameTaken username rest
  end.

Definition UpdateClientUsername (c : string) (username : string) : M (option error) :=
  match ValidateClientUsername username with
  | Some err => ret (Some err)
  | None =>
      do ' (prevName, hasPrevName) <- GetUsername c;
      log INF "SOCKET CLIENT client requested a username update";;
      if hasPrevName && String.eqb prevName username
      then ret (Some (Errorf "error: you already have that username" []))
      else
        do clients <- GetClients;
        do taken <- usernameTaken username clients;
        if taken : bool
        then ret (Some (Errorf "error: the username %q is taken" [username]))
        else
          do err <- UpdateUsername c username;
          match err with
          | Some err =>
              log ERR "SOCKET CLIENT failed to update username";;
              ret (Some err)
          | None =>
              log INF "SOCKET CLIENT sending updateusername event to client";;
              BroadcastTo c "updateusername" (mkResponse "" username NoExtra false);;
              let isNewUser := if hasPrevName then "" else "true" in
              do uuid <- GetId c;
              BroadcastFrom c "info_updateusername"
                (mkResponse uuid username
                   (ExtraFields (<["oldUser" := VString prevName]>
                                 (<["isNewUser" := VString isNewUser]> ∅)))
                   true);;
              ret None
          end
  end.

(** [inl] is the room name, [inr] the error. *)
Definition GetRoomNameFromRequest (req : Request) : string + error :=
  let segs := strings.Split (URL req) ROOM_URL_SEGMENT in
  match segs with
  | _ :: seg1 :: _ => inl seg1
  | _ => inr (Errorf "http request referer field (%s) had an unsupported ROOM_URL_SEGMENT(%q) format"
                     [Referer req; ROOM_URL_SEGMENT])
  end.

(** *** [pkg/socket/handler.go] *)

Definition ParseCommandMessage (client : string) (data : gmap string Value)
  : outcome (option error * string * bool) :=
  match data !! "message" with
  | None =>
      Ret (Some (Errorf "error: invalid client command format; message field empty" []), "", false)
  | Some message =>
      match message with
      | VString command =>
          match command with
          | String b _ =>
              if negb (String.eqb (String b "") "/")
              then Ret (None, "", false)
              else Ret (None, strings.slice_from 1 command, true)
          | EmptyString => Panic "index out of range [0] with length 0"
          end
      | _ =>
          Ret (Some (Errorf "error: client command parse error; unable to cast message to string" []),
               "", false)
      end
  end.

(** Lines 99 to 103: the command text cut at each space, and the arguments
    behind the first segment. *)
Definition commandSegments (command : string) : list string * list string :=
  let cmdSegments := strings.Split command " " in
  let cmdArgs := if (1 <? length cmdSegments)%nat then drop 1 cmdSegments else [] in
  (cmdSegments, cmdArgs).

(** The tick listener of line 210. *)
Definition runTick (callback : TickCallback) (currentTime : Z) : M unit :=
  match callback with
  | StreamsyncTick roomName c =>
      if negb (Z.rem currentTime ROOM_DEFAULT_STREAMSYNC_RATE =? 0)%Z
      then ret tt
      else
        do currPlayback <- GetStreamPlayback roomName;
        match currPlayback with
        | None => log ERR "CALLBACK-PLAYBACK SOCKET CLIENT attempted to send streamsync event to client, but stream playback does not exist."
        | Some _ => ret tt
        end;;
        log INFO "CALLBACK-PLAYBACK SOCKET CLIENT streamsync event sent";;
        do status <- GetStatus currPlayback;
        BroadcastAll c "streamsync" (mkResponse c "" (ExtraStatus status) false)
  end.

Definition RegisterClient (sockioconn : Socket) : M unit :=
  log INFO "SOCKET CLIENT registering client";;
  do roomName <-
    match GetRoomNameFromRequest (socket_request sockioconn) with
    | inl roomName => ret roomName
    | inr _ =>
        log WARN "SOCKET CLIENT websocket connection initiated outside of a valid room. Assigning default lobby room";;
        ret ROOM_DEFAULT_LOBBY
    end;
  log INFO "SOCKET CLIENT assigning client to room";;
  do c <- CreateClient sockioconn;
  JoinRoom c roomName;;
  do id <- GetId c;
  BroadcastFrom c "info_clientjoined" (mkResponse id "" NoExtra false);;
  do sPlayback <- GetStreamPlayback roomName;
  match sPlayback with
  | None =>
      log INFO "SOCKET CLIENT StreamPlayback did not exist for room. Creating...";;
      do sPlayback <- NewStreamPlayback roomName;
      OnTick sPlayback (StreamsyncTick roomName c)
  | Some sPlayback =>
      log INFO "SOCKET CLIENT found StreamPlayback for room";;
      do pStream <- GetStream sPlayback;
      match pStream with
      | Some pStream =>
          log INFO "SOCKET CLIENT found stream info associated with StreamPlayback for room... Sending streamload signal to client";;
          do id <- GetId c;
          BroadcastTo c "streamload" (mkResponse id "" (ExtraInfo (stream_info pStream)) false)
      | None => ret tt
      end
  end.

Definition DeregisterClient (sockioconn : Socket) : M (option error) :=
  do err <- DestroyClient sockioconn;
  match err with
  | Some err => ret (Some (Errorf "error: unable to de-register client: %v" [err]))
  | None => ret None
  end.

(** The body of [HandleClientConnection] before it installs the listeners. *)
Definition HandleClientConnection (conn : Socket) : M unit :=
  log INFO "SOCKET CONN client has connected";;
  RegisterClient conn;;
  do n <- GetClientSize;
  log INFO "SOCKET currently clients registered".

(** The listeners that [HandleClientConnection] installs with [conn.On]. *)
Definition on_disconnection (conn : Socket) : M unit :=
  log INFO "DCONN SOCKET client has disconnected";;
  do c <- GetClient (socket_id conn);
  match c with
  | Some c =>
      do ' (userName, exists_) <- GetUsername c;
      if exists_ : bool
      then BroadcastFrom c "info_clientleft" (mkResponse (socket_id conn) userName NoExtra false)
      else ret tt
  | None => ret tt
  end;;
  do err <- DeregisterClient conn;
  match err with
  | Some _ => log ERR "SOCKET"
  | None => ret tt
  end.

Definition on_request_updateusername (conn : Socket) (data : gmap string string) : M unit :=
  match data !! "user" with
  | None => log ERR "SOCKET CLIENT client sent malformed request to update username. Ignoring request."
  | Some username =>
      do c <- GetClient (socket_id conn);
      match c with
      | None =>
          log ERR "SOCKET CLIENT. Broadcasting as info_clienterror event";;
          lift BroadcastErrorTo_nil
      | Some c =>
          do err <- UpdateClientUsername c username;
          match err with
          | Some err =>
              log ERR "SOCKET CLIENT. Broadcasting as info_clienterror event";;
              BroadcastErrorTo c err
          | None => ret tt
          end
      end
  end.

Definition on_request_chatmessage (conn : Socket) (data : gmap string Value) : M unit :=
  match data !! "user" with
  | Some _ => log INFO "SOCKET CLIENT client requested a chat message broadcast"
  | None => ret tt
  end;;
  do c <- GetClient (socket_id conn);
  match c with
  | None => log ERR "SOCKET CLIENT could not retrieve client. Ignoring request_chatmessage request"
  | Some c =>
      do ' (err, command, isCommand) <- lift (ParseCommandMessage c data);
      match err with
      | Some err =>
          log ERR "SOCKET CLIENT unable to parse client chat message as command";;
          BroadcastSystemMessageTo c err
      | None =>
          if isCommand : bool
          then
            let ' (cmdSegments, cmdArgs) := commandSegments command in
            log INFO "SOCKET CLIENT interpreting chat message as user command";;
            do name <- index_slice cmdSegments 0;
            do ' (result, err) <- ExecuteCommand name cmdArgs c;
            match err with
            | Some err =>
                log ERR "SOCKET CLIENT unable to execute command";;
                BroadcastSystemMessageTo c err
            | None =>
                if (0 <? String.length result)%nat
                then BroadcastSystemMessageTo c result
                else ret tt
            end
          else
            let res := ResponseFromClientData data in
            BroadcastAll c "chatmessage" res;;
            log INFO "SOCKET CLIENT chatmessage received"
      end
  end.

Definition on_request_streamsync (conn : Socket) (data : gmap string Value) : M unit :=
  log INFO "SOCKET CLIENT client requested a streamsync";;
  do c <- GetClient (socket_id conn);
  match c with
  | None => log ERR "SOCKET CLIENT unable to retrieve client from connection id. Ignoring request_streamsync request"
  | Some c =>
      do ' (roomName, exists_) <- GetRoom c;
      if negb exists_
      then log ERR "SOCKET CLIENT client has no room association. Ignoring streamsync request."
      else
        do sPlayback <- GetStreamPlayback roomName;
        match sPlayback with
        | None => ret tt
        | Some _ => ret tt
        end;;
        do id <- GetId c;
        do status <- GetStatus sPlayback;
        BroadcastTo c "streamsync" (mkResponse id "" (ExtraStatus status) false)
  end.

(** The command detection that the chat listener performs: the parse of
    the payload followed by the cut into name and arguments. *)
Inductive Detected : Type :=
| ParseError (err : error)
| NotACommand
| Command (name : string) (args : list string).

Definition detect (data : gmap string Value) : outcome Detected :=
  match ParseCommandMessage "" data with
  | Panic msg => Panic msg
  | Ret (Some err, _, _) => Ret (ParseError err)
  | Ret (None, _, false) => Ret NotACommand
  | Ret (None, command, true) =>
      let ' (cmdSegments, cmdArgs) := commandSegments command in
      match cmdSegments !! 0%nat with
      | Some name => Ret (Command name cmdArgs)
      | None => Panic "index out of range"
      end
  end.

(** A chat payload whose message field is the string [message]. *)
Definition chat (message : string) : gmap string Value :=
  {[ "message" := VString message ]}.

(** The "connection" listener run on each socket of a sequence in turn. *)
Fixpoint connectAll (conns : list Socket) : M unit :=
  match conns with
  | [] => ret tt
  | conn :: rest => HandleClientConnection conn;; connectAll rest
  end.

(** The listeners, as the transport calls them: one call per event, each
    from the stores the call before left (a listener that panicked left them
    as they were at the panic). *)
Inductive Incoming : Type :=
| Connection (conn : Socket)
| Disconnection (conn : Socket)
| RequestUpdateUsername (conn : Socket) (data : gmap string string)
| RequestChatMessage (conn : Socket) (data : gmap string Value)
| RequestStreamsync (conn : Socket) (data : gmap string Value).

Definition serve (ev : Incoming) : M unit :=
  match ev with
  | Connection conn => HandleClientConnection conn
  | Disconnection conn => on_disconnection conn
  | RequestUpdateUsername conn data => on_request_updateusername conn data
  | RequestChatMessage conn data => on_request_chatmessage conn data
  | RequestStreamsync conn data => on_request_streamsync conn data
  end.

Fixpoint serveAll (evs : list Incoming) (st : Server) : Server :=
  match evs with
  | [] => st
  | ev :: rest => serveAll rest (post (serve ev st))
  end.

(** The connection an event comes from. *)
Definition sender (ev : Incoming) : Socket :=
  match ev with
  | Connection conn | Disconnection conn => conn
  | RequestUpdateUsername conn _ | RequestChatMessage conn _ | RequestStreamsync conn _ => conn
  end.

Definition is_connection (ev : Incoming) : bool :=
  match ev with
  | Connection _ => true
  | _ => false
  end.

(** ** Notions used in the statements *)

(** The room that lines 191 to 195 of [RegisterClient] select. *)
Definition roomOf (req : Request) : string :=
  match GetRoomNameFromRequest req with
  | inl roomName => roomName
  | inr _ => ROOM_DEFAULT_LOBBY
  end.

(** The broadcasts of a trace, in order, its log lines dropped. *)
Fixpoint broadcasts (tr : list Effect) : list Effect :=
  match tr with
  | [] => []
  | Log _ _ :: tr' => broadcasts tr'
  | e :: tr' => e :: broadcasts tr'
  end.

(** Connection [id] is delivered an event named [evt] in the trace. *)
Definition receives (tr : list Effect) (id : string) (evt : string) : Prop :=
  ∃ how c data rs, Broadcast how c (Event evt data) rs ∈ tr ∧ id ∈ rs.

(** Connection [id] is delivered something in the trace. *)
Definition reached (tr : list Effect) (id : string) : Prop :=
  ∃ how c msg rs, Broadcast how c msg rs ∈ tr ∧ id ∈ rs.

(** What the chat listener itself sends to [c] after its command has run:
    the error as a system message, or the result text when it is not empty. *)
Definition commandReply (c : string) (res : outcome (string * option error)) : list Effect :=
  match res with
  | Ret (_, Some err) => [Broadcast To c (SystemText err) [c]]
  | Ret (text, None) => if decide (text = "") then [] else [Broadcast To c (SystemText text) [c]]
  | Panic _ => []
  end.

(** The detection as the specification words it: a message is a command
    exactly when its first character is the marker; the text behind the
    marker, split on whitespace, gives the name and the arguments; a marker
    with nothing behind it is a format error. *)
Definition spec_detect (message : string) : Detected :=
  match message with
  | String a rest =>
      if Ascii.eqb a "/"
      then match String.words rest with
           | name :: args => Command name args
           | [] => ParseError "invalid command format"
           end
      else NotACommand
  | EmptyString => NotACommand
  end.

(** The client handler maps [c] and the struct behind it is [x]. *)
Definition registered (st : Server) (c : string) (x : Client) : Prop :=
  c ∈ registry st ∧ objects st !! c = Some x.

(** Every address the client handler maps has a struct behind it. *)
Definition registry_sound (st : Server) : Prop :=
  set_Forall (λ c, is_Some (objects st !! c)) (registry st).

(** Some registered client other than [c] holds the username [n]. *)
Definition held_by_other (st : Server) (c : string) (n : string) : Prop :=
  ∃ c' x', registered st c' x' ∧ c' ≠ c ∧ client_username x' = Some n.

(** No two registered clients hold the same username. *)
Definition unique_usernames (st : Server) : Prop :=
  ∀ c1 c2 x1 x2 n,
    registered st c1 x1 → registered st c2 x2 →
    client_username x1 = Some n → client_username x2 = Some n → c1 = c2.

(** Every playback state has exactly one tick listener, the resync listener
    of its own room. *)
Definition one_listener (st : Server) : Prop :=
  ∀ r pb, playbacks st !! r = Some pb → ∃ c, pb_callbacks pb = [StreamsyncTick r c].

(** Every registered client is in a room, and that room has a playback
    state. *)
Definition rooms_alive (st : Server) : Prop :=
  ∀ c x, registered st c x → ∃ r, client_room x = Some r ∧ is_Some (playbacks st !! r).

Definition stores_ok (st : Server) : Prop :=
  registry_sound st ∧ unique_usernames st ∧ one_listener st ∧ rooms_alive st.

(** The text [name] directly follows the leftmost [ROOM_URL_SEGMENT] of
    the URL and ends at the next one, or at the end of the URL. *)
Definition room_segment (url : string) (name : string) : Prop :=
  ∃ pre rest,
    url = pre +:+ ROOM_URL_SEGMENT +:+ rest ∧
    strings.FirstAfter url pre ROOM_URL_SEGMENT ∧
    ((¬ strings.Contains rest ROOM_URL_SEGMENT ∧ name = rest) ∨
     strings.FirstAfter rest name ROOM_URL_SEGMENT).

(** ** Facts on Go strings *)

(** Forget the collaborators that a statement does not mention. *)
Ltac only_stated :=
  try clear ValidateClientUsername; try clear UpdateUsername_refuses;
  try clear ExecuteCommand; try clear ResponseFromClientData;
  try clear GetStatus_nil; try clear BroadcastErrorTo_nil.

Lemma append_cons (x : ascii) (a b : string) : String x a +:+ b = String x (a +:+ b).
Proof. reflexivity. Qed.

Lemma append_empty_l (b : string) : "" +:+ b = b.
Proof. reflexivity. Qed.

Ltac str_simpl :=
  repeat (rewrite append_cons in * || rewrite append_empty_l in *); simpl in *.

Lemma append_assoc (a b c : string) : (a +:+ b) +:+ c = a +:+ (b +:+ c).
Proof. induction a as [|x a IH]; str_simpl; [reflexivity | now rewrite IH]. Qed.

Lemma append_empty_r (a : string) : a +:+ "" = a.
Proof. induction a as [|x a IH]; str_simpl; [reflexivity | now rewrite IH]. Qed.

Lemma length_append (a b : string) :
  String.length (a +:+ b) = (String.length a + String.length b)%nat.
Proof. induction a as [|x a IH]; str_simpl; [reflexivity | now rewrite IH]. Qed.

Lemma length_zero (a : string) : String.length a = 0%nat → a = "".
Proof. destruct a; simpl; [reflexivity | discriminate]. Qed.

Lemma slice_to_from (m : nat) (s : string) :
  strings.slice_to m s +:+ strings.slice_from m s = s.
Proof.
  revert s; induction m as [|m IH]; intros [|a s]; simpl; try reflexivity.
  rewrite ?append_cons. now rewrite IH.
Qed.

Lemma slice_to_append (p q : string) : strings.slice_to (String.length p) (p +:+ q) = p.
Proof.
  induction p as [|a p IH]; simpl; [now destruct q |].
  rewrite ?append_cons. now rewrite IH.
Qed.

Lemma slice_from_append (p q : string) : strings.slice_from (String.length p) (p +:+ q) = q.
Proof. induction p as [|a p IH]; simpl; [reflexivity | rewrite ?append_cons; exact IH]. Qed.

Lemma slice_from_length (m : nat) (s : string) :
  String.length (strings.slice_from m s) = (String.length s - m)%nat.
Proof.
  revert s; induction m as [|m IH]; intros [|a s]; simpl; try reflexivity.
  apply IH.
Qed.

Lemma HasPrefix_spec (s pre : string) :
  strings.HasPrefix s pre = true ↔ ∃ q, s = pre +:+ q.
Proof.
  revert s; induction pre as [|a pre IH]; intros s; simpl.
  - split; [intros _; exists s; reflexivity | reflexivity].
  - destruct s as [|b s].
    + split; [discriminate | intros [q Hq]; discriminate].
    + rewrite andb_true_iff, Ascii.eqb_eq, IH.
      split.
      * intros [-> [q ->]]. exists q. reflexivity.
      * intros [q Hq]. rewrite append_cons in Hq. injection Hq as -> ->. eauto.
Qed.

Lemma HasPrefix_empty_l (sep : string) : sep ≠ "" → strings.HasPrefix "" sep = false.
Proof. destruct sep; [congruence | reflexivity]. Qed.

(** [Index] finds an occurrence, and the leftmost one. *)
Lemma Index_Some (s sep : string) (m : nat) :
  strings.Index s sep = Some m →
  ∃ p q, s = p +:+ sep +:+ q ∧ String.length p = m.
Proof.
  revert m; induction s as [|a s IH]; intros m; simpl.
  - destruct (strings.HasPrefix "" sep) eqn:E; [|discriminate].
    intros [= <-]. apply HasPrefix_spec in E as [q Hq]. exists "", q. auto.
  - destruct (strings.HasPrefix (String a s) sep) eqn:E.
    + intros [= <-]. apply HasPrefix_spec in E as [q Hq]. exists "", q. auto.
    + destruct (strings.Index s sep) as [k|] eqn:Ek; [|discriminate].
      intros [= <-]. destruct (IH k eq_refl) as (p & q & -> & Hp).
      exists (String a p), q. simpl. auto.
Qed.

Lemma Index_least (s sep : string) (m : nat) :
  strings.Index s sep = Some m →
  ∀ p q, s = p +:+ sep +:+ q → (m ≤ String.length p)%nat.
Proof.
  revert m; induction s as [|a s IH]; intros m; simpl.
  - destruct (strings.HasPrefix "" sep); [|discriminate]. intros [= <-]. lia.
  - destruct (strings.HasPrefix (String a s) sep) eqn:E.
    + intros [= <-]. lia.
    + destruct (strings.Index s sep) as [k|] eqn:Ek; [|discriminate].
      intros [= <-] p q Hs. destruct p as [|b p].
      * rewrite ?append_empty_l in Hs.
        assert (strings.HasPrefix (String a s) sep = true) as E'
          by (apply HasPrefix_spec; eauto).
        congruence.
      * rewrite ?append_cons in Hs. injection Hs as _ Hs. simpl.
        specialize (IH k eq_refl p q Hs). lia.
Qed.

Lemma Index_None (s sep : string) :
  strings.Index s sep = None → ¬ strings.Contains s sep.
Proof.
  induction s as [|a s IH]; simpl.
  - destruct (strings.HasPrefix "" sep) eqn:E; [discriminate|].
    intros _ (p & q & Hs). destruct p; [|discriminate]. rewrite ?append_empty_l in Hs.
    assert (strings.HasPrefix "" sep = true) by (apply HasPrefix_spec; eauto).
    congruence.
  - destruct (strings.HasPrefix (String a s) sep) eqn:E; [discriminate|].
    destruct (strings.Index s sep) eqn:Ek; [discriminate|].
    intros _ (p & q & Hs). destruct p as [|b p].
    + rewrite ?append_empty_l in Hs.
      assert (strings.HasPrefix (String a s) sep = true) by (apply HasPrefix_spec; eauto).
      congruence.
    + rewrite ?append_cons in Hs. injection Hs as _ Hs.
      apply IH; [reflexivity | exists p, q; exact Hs].
Qed.

Lemma Index_FirstAfter (s pre sep : string) :
  strings.FirstAfter s pre sep → strings.Index s sep = Some (String.length pre).
Proof.
  intros [[q Hq] Hmin].
  destruct (strings.Index s sep) as [m|] eqn:E.
  - destruct (Index_Some _ _ _ E) as (p' & q' & Hs & Hlen).
    pose proof (Hmin _ _ Hs). pose proof (Index_least _ _ _ E _ _ Hq).
    f_equal. lia.
  - exfalso. apply (Index_None _ _ E). exists pre, q. exact Hq.
Qed.

Lemma Index_Some_FirstAfter (s sep : string) (m : nat) :
  strings.Index s sep = Some m →
  strings.FirstAfter s (strings.slice_to m s) sep ∧
  s = strings.slice_to m s +:+ sep +:+ strings.slice_from (m + String.length sep) s.
Proof.
  intros E. destruct (Index_Some _ _ _ E) as (p & q & Hs & Hlen).
  assert (strings.slice_to m s = p) as Hp by (subst; apply slice_to_append).
  assert (strings.slice_from (m + String.length sep) s = q) as Hq.
  { subst m s. rewrite <- length_append, <- append_assoc. apply slice_from_append. }
  rewrite Hp, Hq. split; [split|]; eauto.
  intros p' q' Hs'. rewrite Hlen. eapply Index_least; eauto.
Qed.

(** [Split] cuts at the leftmost occurrence and goes on behind it. *)
Lemma Index_empty (sep : string) : sep ≠ "" → strings.Index "" sep = None.
Proof. intros H. simpl. now rewrite HasPrefix_empty_l. Qed.

Lemma length_sep_pos (sep : string) : sep ≠ "" → (1 ≤ String.length sep)%nat.
Proof. destruct sep; [congruence | simpl; lia]. Qed.

Lemma genSplit_fuel (sep : string) :
  sep ≠ "" →
  ∀ f1 f2 s, (String.length s ≤ f1)%nat → (String.length s ≤ f2)%nat →
             strings.genSplit f1 s sep = strings.genSplit f2 s sep.
Proof.
  intros Hsep. pose proof (length_sep_pos _ Hsep) as Hpos.
  assert (∀ f s, String.length s = 0%nat → strings.genSplit f s sep = [s]) as Hz.
  { intros f s Hs. apply length_zero in Hs as ->.
    destruct f; simpl; [reflexivity | now rewrite HasPrefix_empty_l]. }
  induction f1 as [|f1 IH]; intros f2 s H1 H2.
  - rewrite !Hz by lia. reflexivity.
  - destruct f2 as [|f2]; [rewrite !Hz by lia; reflexivity|].
    cbn [strings.genSplit]. destruct (strings.Index s sep) as [m|]; [|reflexivity].
    f_equal. apply IH; rewrite slice_from_length; lia.
Qed.

Lemma Split_eqn (s sep : string) :
  sep ≠ "" →
  strings.Split s sep =
    match strings.Index s sep with
    | None => [s]
    | Some m => strings.slice_to m s
                  :: strings.Split (strings.slice_from (m + String.length sep) s) sep
    end.
Proof.
  intros Hsep. pose proof (length_sep_pos _ Hsep) as Hpos.
  destruct sep as [|a sep']; [congruence|]. unfold strings.Split.
  destruct (String.length s) as [|n] eqn:Hn.
  - apply length_zero in Hn as ->. now rewrite Index_empty.
  - cbn [strings.genSplit]. destruct (strings.Index s _) as [m|]; [|reflexivity].
    f_equal. apply genSplit_fuel; [assumption | |lia].
    rewrite slice_from_length. lia.
Qed.

Lemma Split_ind (sep : string) (P : string → list string → Prop) :
  sep ≠ "" →
  (∀ s, strings.Index s sep = None → P s [s]) →
  (∀ s m, strings.Index s sep = Some m →
          let rest := strings.slice_from (m + String.length sep) s in
          P rest (strings.Split rest sep) →
          P s (strings.slice_to m s :: strings.Split rest sep)) →
  ∀ s, P s (strings.Split s sep).
Proof.
  intros Hsep Hnone Hsome s. pose proof (length_sep_pos _ Hsep) as Hpos.
  remember (String.length s) as n eqn:Hn. revert s Hn.
  induction n as [n IH] using lt_wf_ind. intros s Hn.
  rewrite Split_eqn by assumption.
  destruct (strings.Index s sep) as [m|] eqn:E; [|auto].
  apply Hsome; [assumption|]. cbn zeta.
  destruct (Index_Some _ _ _ E) as (p & q & Hs & Hp).
  eapply IH; [|reflexivity]. rewrite slice_from_length. subst n s.
  rewrite !length_append. lia.
Qed.

Lemma Split_nonempty (s sep : string) : sep ≠ "" → strings.Split s sep ≠ [].
Proof.
  intros Hsep. rewrite Split_eqn by assumption.
  destruct (strings.Index s sep); discriminate.
Qed.

Lemma Join_cons (x : string) (l : list string) (sep : string) :
  l ≠ [] → strings.Join (x :: l) sep = x +:+ sep +:+ strings.Join l sep.
Proof. destruct l; [congruence | reflexivity]. Qed.

(** Joining the segments with the separator gives the text back. *)
Lemma Join_Split (s sep : string) :
  sep ≠ "" → strings.Join (strings.Split s sep) sep = s.
Proof.
  intros Hsep. apply (Split_ind sep (λ s l, strings.Join l sep = s)); [assumption| |].
  - reflexivity.
  - intros s0 m E rest IH. rewrite Join_cons by now apply Split_nonempty.
    rewrite IH. symmetry. apply (Index_Some_FirstAfter _ _ _ E).
Qed.

(** No segment contains the separator. *)
Lemma Split_no_sep (s sep : string) :
  sep ≠ "" → Forall (λ p, ¬ strings.Contains p sep) (strings.Split s sep).
Proof.
  intros Hsep. pose proof (length_sep_pos _ Hsep) as Hpos.
  apply (Split_ind sep (λ _ l, Forall (λ p, ¬ strings.Contains p sep) l)); [assumption| |].
  - intros s0 E. constructor; [now apply Index_None | constructor].
  - intros s0 m E rest IH. constructor; [|exact IH].
    intros (p & q & Hpq).
    destruct (Index_Some _ _ _ E) as (p0 & q0 & Hs & Hlen).
    assert (strings.slice_to m s0 = p0) as Hp0 by (subst; apply slice_to_append).
    rewrite Hp0 in Hpq. subst p0.
    rewrite !append_assoc in Hs.
    pose proof (Index_least _ _ _ E _ _ Hs) as Hle.
    rewrite !length_append in Hlen. lia.
Qed.

(** A separator of one byte: segments without that byte are found again. *)
Lemma occurrence_inside (c : ascii) (p' p q q' : string) :
  p +:+ String c q = p' +:+ String c q' →
  (String.length p' < String.length p)%nat →
  strings.Contains p (String c "").
Proof.
  revert p; induction p' as [|a' p' IH]; intros [|a p] Heq Hlt; simpl in Hlt; try lia.
  - rewrite append_cons, append_empty_l in Heq. injection Heq as -> _.
    exists "", p. reflexivity.
  - rewrite !append_cons in Heq. injection Heq as -> Heq.
    destruct (IH p Heq ltac:(lia)) as (u & v & ->). exists (String a' u), v. reflexivity.
Qed.

Lemma Index_byte (c : ascii) (p q : string) :
  ¬ strings.Contains p (String c "") →
  strings.Index (p +:+ String c q) (String c "") = Some (String.length p).
Proof.
  intros Hp. apply Index_FirstAfter. split.
  - exists q. reflexivity.
  - intros p' q' Heq. destruct (le_lt_dec (String.length p) (String.length p')); [assumption|].
    exfalso. apply Hp. eapply occurrence_inside; [|eassumption].
    rewrite Heq. reflexivity.
Qed.

Lemma Index_no_byte (c : ascii) (p : string) :
  ¬ strings.Contains p (String c "") → strings.Index p (String c "") = None.
Proof.
  intros Hp. destruct (strings.Index p _) as [m|] eqn:E; [|reflexivity].
  exfalso. apply Hp. destruct (Index_Some _ _ _ E) as (u & v & -> & _). now exists u, v.
Qed.

Lemma Split_Join_byte (c : ascii) (l : list string) :
  l ≠ [] →
  Forall (λ p, ¬ strings.Contains p (String c "")) l →
  strings.Split (strings.Join l (String c "")) (String c "") = l.
Proof.
  induction l as [|x l IH]; [congruence|]. intros _ Hall.
  apply Forall_cons in Hall as [Hx Hl].
  rewrite Split_eqn by discriminate. destruct l as [|y l].
  - simpl. now rewrite Index_no_byte.
  - rewrite Join_cons by discriminate.
    change (x +:+ String c "" +:+ strings.Join (y :: l) (String c ""))
      with (x +:+ String c (strings.Join (y :: l) (String c ""))).
    rewrite Index_byte by assumption. rewrite slice_to_append. f_equal.
    change (x +:+ String c (strings.Join (y :: l) (String c "")))
      with (x +:+ String c "" +:+ strings.Join (y :: l) (String c "")).
    rewrite <- append_assoc, <- length_append, slice_from_append.
    apply IH; [discriminate | assumption].
Qed.

(** ** Running the monad *)

Ltac unfold_ops :=
  unfold JoinRoom, GetId, GetRoom, GetUsername,
    BroadcastFrom, BroadcastTo, BroadcastAll, BroadcastSystemMessageTo, BroadcastErrorTo,
    CreateClient, GetClient, GetClients, GetClientSize, DestroyClient,
    GetStreamPlayback, NewStreamPlayback, OnTick, GetStream, loadPlayback,
    index_slice, load, store, modify, gets, emit, log, ret, lift, panic, bind.

(** Symbolic execution: reduce, and resolve the lookups that block it. *)
Ltac mrun :=
  repeat (progress cbn
          || rewrite lookup_insert_eq
          || rewrite insert_insert_eq
          || rewrite alter_insert_eq
          || match goal with
             | H : _ !! _ = _ |- _ => rewrite H
             | H : decide _ = _ |- _ => rewrite H
             end).

Lemma bind_ret {A B} (m : M A) (f : A → M B) (st st1 : Server) (t1 : list Effect) (a : A) :
  m st = mkRun st1 t1 (Ret a) →
  bind m f st = match f a st1 with mkRun st2 t2 r => mkRun st2 (t1 ++ t2) r end.
Proof. intros H. unfold bind. now rewrite H. Qed.

Lemma bind_panic {A B} (m : M A) (f : A → M B) (st st1 : Server) (t1 : list Effect) (e : string) :
  m st = mkRun st1 t1 (Panic e) → bind m f st = mkRun st1 t1 (Panic e).
Proof. intros H. unfold bind. now rewrite H. Qed.

Lemma broadcasts_app (t1 t2 : list Effect) :
  broadcasts (t1 ++ t2) = broadcasts t1 ++ broadcasts t2.
Proof.
  induction t1 as [|[lvl line|how c msg rs] t1 IH]; simpl; [reflexivity | exact IH | now rewrite IH].
Qed.

Lemma in_room_objects (st : Server) (objs : gmap string Client) (r : string) :
  (∀ c, client_room <$> objs !! c = client_room <$> objects st !! c) →
  in_room (mkServer objs (registry st) (playbacks st)) r = in_room st r.
Proof.
  intros H. unfold in_room. simpl. apply list_filter_iff. intros c. now rewrite H.
Qed.

(** *** [RegisterClient], run from any state *)

Lemma RegisterClient_run (conn : Socket) (st : Server) :
  let id := socket_id conn in
  let r := roomOf (socket_request conn) in
  let objs := <[id := mkClient id None (Some r)]> (objects st) in
  let reg := {[id]} ∪ registry st in
  RegisterClient conn st =
    mkRun
      (mkServer objs reg
         (match playbacks st !! r with
          | Some _ => playbacks st
          | None => <[r := mkStreamPlayback None 0 false [StreamsyncTick r id]]> (playbacks st)
          end))
      (Log INFO "SOCKET CLIENT registering client"
       :: match GetRoomNameFromRequest (socket_request conn) with
          | inl _ => []
          | inr _ => [Log WARN "SOCKET CLIENT websocket connection initiated outside of a valid room. Assigning default lobby room"]
          end
       ++ Log INFO "SOCKET CLIENT assigning client to room"
       :: Broadcast From_ id
            (Event "info_clientjoined" (mkResponse id "" NoExtra false))
            (filter (λ c, c ≠ id) (in_room (mkServer objs reg (playbacks st)) r))
       :: match playbacks st !! r with
          | None => [Log INFO "SOCKET CLIENT StreamPlayback did not exist for room. Creating..."]
          | Some pb =>
              Log INFO "SOCKET CLIENT found StreamPlayback for room"
              :: match pb_stream pb with
                 | Some pStream =>
                     [Log INFO "SOCKET CLIENT found stream info associated with StreamPlayback for room... Sending streamload signal to client";
                      Broadcast To id
                        (Event "streamload"
                           (mkResponse id "" (ExtraInfo (stream_info pStream)) false))
                        [id]]
                 | None => []
                 end
          end)
      (Ret tt).
Proof.
  intros id r objs reg. subst id r objs reg. unfold RegisterClient, roomOf.
  destruct (GetRoomNameFromRequest (socket_request conn)) as [r|e];
    unfold_ops; mrun;
    (destruct (playbacks st !! _) as [pb|] eqn:E; mrun; [destruct (pb_stream pb); mrun|]);
    reflexivity.
Qed.

Lemma RegisterClient_post (conn : Socket) (st : Server) :
  let id := socket_id conn in
  let r := roomOf (socket_request conn) in
  post (RegisterClient conn st) =
    mkServer (<[id := mkClient id None (Some r)]> (objects st)) ({[id]} ∪ registry st)
      (match playbacks st !! r with
       | Some _ => playbacks st
       | None => <[r := mkStreamPlayback None 0 false [StreamsyncTick r id]]> (playbacks st)
       end).
Proof. cbv zeta. now rewrite RegisterClient_run. Qed.

Lemma RegisterClient_returns (conn : Socket) (st : Server) :
  result (RegisterClient conn st) = Ret tt.
Proof. now rewrite RegisterClient_run. Qed.

(** After a registration the new client is registered, is in its room, and
    the room has a playback state; the registry stays sound. *)
Lemma RegisterClient_registered (conn : Socket) (st : Server) :
  registered (post (RegisterClient conn st)) (socket_id conn)
    (mkClient (socket_id conn) None (Some (roomOf (socket_request conn)))).
Proof.
  only_stated. rewrite RegisterClient_post. split; cbn; [set_solver | apply lookup_insert_eq].
Qed.

Lemma RegisterClient_playback (conn : Socket) (st : Server) :
  is_Some (playbacks (post (RegisterClient conn st)) !! roomOf (socket_request conn)).
Proof.
  rewrite RegisterClient_post. cbn.
  destruct (playbacks st !! roomOf (socket_request conn)) as [pb|] eqn:E.
  - rewrite E. eauto.
  - rewrite lookup_insert_eq. eauto.
Qed.

Lemma RegisterClient_sound (conn : Socket) (st : Server) :
  registry_sound st → registry_sound (post (RegisterClient conn st)).
Proof.
  only_stated. intros Hsound c. rewrite RegisterClient_post. cbn. intros Hc.
  destruct (decide (socket_id conn = c)) as [<-|Hne].
  - rewrite lookup_insert_eq. eauto.
  - rewrite lookup_insert_ne by assumption. apply Hsound.
    apply elem_of_union in Hc as [Hc|Hc]; [|exact Hc].
    apply elem_of_singleton in Hc. congruence.
Qed.

Lemma HandleClientConnection_post (conn : Socket) (st : Server) :
  post (HandleClientConnection conn st) = post (RegisterClient conn st) ∧
  result (HandleClientConnection conn st) = Ret tt.
Proof.
  unfold HandleClientConnection.
  erewrite bind_ret by reflexivity.
  erewrite bind_ret by apply RegisterClient_run.
  rewrite RegisterClient_run. cbn. auto.
Qed.

(** *** Room selection *)

Lemma Index_not_Contains (s sep : string) :
  ¬ strings.Contains s sep → strings.Index s sep = None.
Proof.
  intros Hs. destruct (strings.Index s sep) as [m|] eqn:E; [|reflexivity].
  exfalso. apply Hs. destruct (Index_Some _ _ _ E) as (u & v & -> & _). now exists u, v.
Qed.

Lemma GetRoomNameFromRequest_absent (req : Request) :
  ¬ strings.Contains (URL req) ROOM_URL_SEGMENT →
  ∃ err, GetRoomNameFromRequest req = inr err.
Proof.
  intros H. unfold GetRoomNameFromRequest. rewrite Split_eqn by discriminate.
  rewrite Index_not_Contains by assumption. eauto.
Qed.

Lemma GetRoomNameFromRequest_segment (req : Request) (name : string) :
  room_segment (URL req) name → GetRoomNameFromRequest req = inl name.
Proof.
  intros (pre & rest & Hurl & Hfirst & Hname). unfold GetRoomNameFromRequest.
  rewrite Split_eqn by discriminate. rewrite (Index_FirstAfter _ _ _ Hfirst).
  assert (strings.slice_from (String.length pre + String.length ROOM_URL_SEGMENT) (URL req)
          = rest) as ->.
  { rewrite Hurl, <- length_append, <- append_assoc. apply slice_from_append. }
  rewrite (Split_eqn rest) by discriminate. destruct Hname as [[Hno ->] | Hnext].
  - now rewrite Index_not_Contains.
  - rewrite (Index_FirstAfter _ _ _ Hnext). destruct Hnext as [[q ->] _].
    now rewrite slice_to_append.
Qed.

Lemma room_segment_exists (url : string) :
  strings.Contains url ROOM_URL_SEGMENT → ∃ name, room_segment url name.
Proof.
  intros Hc. destruct (strings.Index url ROOM_URL_SEGMENT) as [m|] eqn:E;
    [|now apply Index_None in E].
  destruct (Index_Some_FirstAfter _ _ _ E) as [Hfirst Hurl].
  set (rest := strings.slice_from (m + String.length ROOM_URL_SEGMENT) url) in *.
  destruct (strings.Index rest ROOM_URL_SEGMENT) as [k|] eqn:Ek.
  - exists (strings.slice_to k rest), (strings.slice_to m url), rest.
    split; [exact Hurl|]. split; [exact Hfirst|]. right.
    apply (Index_Some_FirstAfter _ _ _ Ek).
  - exists rest, (strings.slice_to m url), rest.
    split; [exact Hurl|]. split; [exact Hfirst|]. left.
    split; [now apply Index_None | reflexivity].
Qed.

(** C8: the room a connecting client joins is the text that follows the
    leftmost [/v/] of the request URL (up to the next [/v/], if any) when
    the URL has that segment, and the lobby room ["lobby"] when it has none. *)
Theorem C8_room_from_url_segment (conn : Socket) (st : Server) :
  let url := URL (socket_request conn) in
  let joined := client_room <$> objects (post (RegisterClient conn st)) !! socket_id conn in
  (strings.Contains url ROOM_URL_SEGMENT → ∃ name, room_segment url name) ∧
  (∀ name, room_segment url name → joined = Some (Some name)) ∧
  (¬ strings.Contains url ROOM_URL_SEGMENT → joined = Some (Some "lobby")).
Proof.
  cbv zeta. rewrite RegisterClient_post. cbn. rewrite lookup_insert_eq. cbn.
  split; [apply room_segment_exists|]. unfold roomOf. split.
  - intros name Hseg. now rewrite (GetRoomNameFromRequest_segment _ _ Hseg).
  - intros Habs. now destruct (GetRoomNameFromRequest_absent _ Habs) as [err ->].
Qed.

(** *** The catch-up event *)

(** C6: a client that joins a room whose playback state exists is delivered
    a [streamload] event exactly when that state has a loaded stream, and
    nobody else is; a client whose join creates the playback state is
    delivered none. *)
Theorem C6_streamload_catch_up (conn : Socket) (st : Server) :
  let id := socket_id conn in
  let r := roomOf (socket_request conn) in
  let tr := trace (RegisterClient conn st) in
  (∀ pb, playbacks st !! r = Some pb →
         (receives tr id "streamload" ↔ is_Some (pb_stream pb))) ∧
  (playbacks st !! r = None → ¬ receives tr id "streamload") ∧
  (∀ id', receives tr id' "streamload" → id' = id).
Proof.
  only_stated.
  cbv zeta. rewrite RegisterClient_run. cbn [trace].
  set (joinedEvt := Broadcast From_ _ _ _).
  assert (∀ id' tail,
    receives (Log INFO "SOCKET CLIENT registering client"
              :: match GetRoomNameFromRequest (socket_request conn) with
                 | inl _ => []
                 | inr _ => [Log WARN "SOCKET CLIENT websocket connection initiated outside of a valid room. Assigning default lobby room"]
                 end
              ++ Log INFO "SOCKET CLIENT assigning client to room" :: joinedEvt :: tail)
             id' "streamload"
    ↔ receives tail id' "streamload") as Hskip.
  { intros id' tail. unfold receives. split.
    - intros (how & c & data & rs & Hin & Hid). exists how, c, data, rs. split; [|exact Hid].
      apply elem_of_cons in Hin as [Hin|Hin]; [discriminate|].
      apply elem_of_app in Hin as [Hin|Hin].
      + destruct (GetRoomNameFromRequest _); [now apply elem_of_nil in Hin|].
        apply elem_of_cons in Hin as [Hin|Hin]; [discriminate | now apply elem_of_nil in Hin].
      + apply elem_of_cons in Hin as [Hin|Hin]; [discriminate|].
        apply elem_of_cons in Hin as [Hin|Hin]; [|exact Hin].
        subst joinedEvt. discriminate.
    - intros (how & c & data & rs & Hin & Hid). exists how, c, data, rs. split; [|exact Hid].
      apply elem_of_cons. right. apply elem_of_app. right. now do 2 (apply elem_of_cons; right). }
  assert (∀ id' pb, receives
            (Log INFO "SOCKET CLIENT found StreamPlayback for room"
             :: match pb_stream pb with
                | Some pStream =>
                    [Log INFO "SOCKET CLIENT found stream info associated with StreamPlayback for room... Sending streamload signal to client";
                     Broadcast To (socket_id conn)
                       (Event "streamload"
                          (mkResponse (socket_id conn) "" (ExtraInfo (stream_info pStream)) false))
                       [socket_id conn]]
                | None => []
                end) id' "streamload"
          ↔ is_Some (pb_stream pb) ∧ id' = socket_id conn) as Hload.
  { intros id' pb. unfold receives. split.
    - intros (how & c & data & rs & Hin & Hid).
      apply elem_of_cons in Hin as [Hin|Hin]; [discriminate|].
      destruct (pb_stream pb) as [s|]; [|now apply elem_of_nil in Hin].
      apply elem_of_cons in Hin as [Hin|Hin]; [discriminate|].
      apply elem_of_cons in Hin as [Hin|Hin]; [|now apply elem_of_nil in Hin].
      injection Hin as -> -> _ ->. apply list_elem_of_singleton in Hid. eauto.
    - intros [[s Hs] ->]. rewrite Hs. do 4 eexists. split.
      + do 2 (apply elem_of_cons; right). apply elem_of_cons. left. reflexivity.
      + apply list_elem_of_singleton. reflexivity. }
  split; [|split].
  - intros pb Hpb. rewrite Hskip, Hpb, Hload. tauto.
  - intros Hnone. rewrite Hskip, Hnone. intros (how & c & data & rs & Hin & _).
    apply elem_of_cons in Hin as [Hin|Hin]; [discriminate | now apply elem_of_nil in Hin].
  - intros id'. rewrite Hskip. destruct (playbacks st !! _) as [pb|].
    + rewrite Hload. tauto.
    + intros (how & c & data & rs & Hin & _).
      apply elem_of_cons in Hin as [Hin|Hin]; [discriminate | now apply elem_of_nil in Hin].
Qed.

(** *** The tick listener is registered once *)

Lemma bind_post {A B} (m : M A) (f : A → M B) (st : Server) (a : A) :
  result (m st) = Ret a →
  post (bind m f st) = post (f a (post (m st))) ∧
  result (bind m f st) = result (f a (post (m st))).
Proof.
  unfold bind. destruct (m st) as [st1 t1 [a'|e]]; cbn; [|discriminate].
  intros [= ->]. now destruct (f a st1).
Qed.

Lemma playbacks_after_connection (conn : Socket) (st : Server) (r : string) :
  playbacks (post (HandleClientConnection conn st)) !! r =
    match playbacks st !! r with
    | Some pb => Some pb
    | None =>
        if decide (roomOf (socket_request conn) = r)
        then Some (mkStreamPlayback None 0 false [StreamsyncTick r (socket_id conn)])
        else None
    end.
Proof.
  destruct (HandleClientConnection_post conn st) as [-> _]. rewrite RegisterClient_post. cbn.
  destruct (decide (roomOf (socket_request conn) = r)) as [->|Hne].
  - destruct (playbacks st !! r) as [pb|] eqn:E; [exact E | apply lookup_insert_eq].
  - destruct (playbacks st !! roomOf (socket_request conn));
      [|rewrite lookup_insert_ne by assumption]; now destruct (playbacks st !! r).
Qed.

Lemma connectAll_returns (conns : list Socket) (st : Server) :
  result (connectAll conns st) = Ret tt.
Proof.
  revert st; induction conns as [|conn rest IH]; intros st; [reflexivity|].
  cbn [connectAll]. destruct (HandleClientConnection_post conn st) as [_ Hret].
  destruct (bind_post _ (λ _, connectAll rest) _ _ Hret) as [_ ->]. apply IH.
Qed.

Lemma connectAll_keeps_playback (conns : list Socket) (st : Server) (r : string)
      (pb : StreamPlayback) :
  playbacks st !! r = Some pb →
  playbacks (post (connectAll conns st)) !! r = Some pb.
Proof.
  revert st; induction conns as [|conn rest IH]; intros st Hpb; [exact Hpb|].
  cbn [connectAll]. destruct (HandleClientConnection_post conn st) as [_ Hret].
  destruct (bind_post _ (λ _, connectAll rest) _ _ Hret) as [-> _]. apply IH.
  now rewrite playbacks_after_connection, Hpb.
Qed.

(** C5: over any sequence of connections to one room, the room's playback
    state ends with exactly one tick listener when the sequence creates it,
    the one registered by the first connection, and with the listeners it
    already had when it existed before: no later join registers another. *)
Theorem C5_tick_listener_registered_once (conns : list Socket) (st : Server) (r : string) :
  Forall (λ conn, roomOf (socket_request conn) = r) conns →
  result (connectAll conns st) = Ret tt ∧
  pb_callbacks <$> playbacks (post (connectAll conns st)) !! r =
    match playbacks st !! r, conns with
    | Some pb, _ => Some (pb_callbacks pb)
    | None, first :: _ => Some [StreamsyncTick r (socket_id first)]
    | None, [] => None
    end.
Proof.
  intros Hroom. split; [apply connectAll_returns|].
  destruct (playbacks st !! r) as [pb|] eqn:E.
  - now rewrite (connectAll_keeps_playback _ _ _ _ E).
  - destruct conns as [|first rest]; [cbn; now rewrite E|].
    apply Forall_cons in Hroom as [Hfirst _].
    cbn [connectAll]. destruct (HandleClientConnection_post first st) as [_ Hret].
    destruct (bind_post _ (λ _, connectAll rest) _ _ Hret) as [-> _].
    rewrite (connectAll_keeps_playback rest _ r
               (mkStreamPlayback None 0 false [StreamsyncTick r (socket_id first)]));
      [reflexivity|].
    rewrite playbacks_after_connection, E. now rewrite decide_True.
Qed.

(** *** The resync listener *)

Lemma rem_zero_iff_mod_zero (t : Z) :
  Z.rem t ROOM_DEFAULT_STREAMSYNC_RATE = 0%Z ↔ (t mod 30 = 0)%Z.
Proof.
  unfold ROOM_DEFAULT_STREAMSYNC_RATE.
  rewrite Z.rem_divide by lia. rewrite Z.mod_divide by lia. reflexivity.
Qed.

(** C3: the tick listener of a room broadcasts the room's playback snapshot
    to the room on the ticks whose position is 0 modulo 30, and does nothing
    at all on every other tick. *)
Theorem C3_resync_every_30_ticks (roomName c : string) (currentTime : Z) (st : Server)
        (pb : StreamPlayback) (x : Client) (r : string) :
  playbacks st !! roomName = Some pb →
  objects st !! c = Some x →
  client_room x = Some r →
  let run := runTick (StreamsyncTick roomName c) currentTime st in
  result run = Ret tt ∧
  post run = st ∧
  ((currentTime mod 30 = 0)%Z →
     broadcasts (trace run) =
       [Broadcast All c
          (Event "streamsync" (mkResponse c "" (ExtraStatus (statusOf pb)) false))
          (in_room st r)]) ∧
  ((currentTime mod 30 ≠ 0)%Z → trace run = []).
Proof.
  only_stated.
  intros Hpb Hx Hr. cbv zeta. unfold runTick.
  rewrite <- rem_zero_iff_mod_zero.
  destruct (Z.eqb_spec (Z.rem currentTime ROOM_DEFAULT_STREAMSYNC_RATE) 0) as [Hz|Hnz]; cbn [negb].
  - unfold GetStatus. unfold_ops. mrun. rewrite Hr. mrun. destruct st. tauto.
  - cbn. tauto.
Qed.

(** *** [UpdateClientUsername], run from a state where [c] points to a struct *)

Lemma GetUsername_run (c : string) (st : Server) (x : Client) :
  objects st !! c = Some x →
  GetUsername c st =
    mkRun st [] (Ret (match client_username x with Some n => (n, true) | None => ("", false) end)).
Proof. intros Hx. unfold_ops. now mrun. Qed.

Lemma usernameTaken_run (n : string) (clients : list string) (st : Server) :
  (∀ c, c ∈ clients → is_Some (objects st !! c)) →
  ∃ b : bool,
    usernameTaken n clients st = mkRun st [] (Ret b) ∧
    (b = true ↔ ∃ c x, c ∈ clients ∧ objects st !! c = Some x ∧ client_username x = Some n).
Proof.
  only_stated.
  induction clients as [|c rest IH]; intros Hall.
  - exists false. split; [reflexivity|]. split; [discriminate|].
    intros (c & x & Hin & _). now apply elem_of_nil in Hin.
  - destruct (Hall c) as [x Hx]; [apply elem_of_cons; auto|].
    destruct IH as (b & Hrun & Hb); [intros c' Hc'; apply Hall, elem_of_cons; auto|].
    assert ((∃ c' x', c' ∈ c :: rest ∧ objects st !! c' = Some x' ∧ client_username x' = Some n)
            ↔ client_username x = Some n ∨ b = true) as Hcons.
    { rewrite Hb. split.
      - intros (c' & x' & Hin & Hx' & Hn). apply elem_of_cons in Hin as [->|Hin].
        + left. congruence.
        + right. eauto.
      - intros [Hn | (c' & x' & Hin & Hx' & Hn)].
        + exists c, x. split; [apply elem_of_cons; auto | auto].
        + exists c', x'. split; [apply elem_of_cons; auto | auto]. }
    cbn [usernameTaken]. erewrite bind_ret by (apply GetUsername_run; eassumption).
    destruct (client_username x) as [m|]; cbn [negb].
    + destruct (String.eqb_spec n m) as [->|Hne].
      * exists true. split; [reflexivity|]. rewrite Hcons. intuition.
      * exists b. rewrite Hrun. split; [reflexivity|]. rewrite Hcons.
        split; [auto|]. intros [[= ?]|?]; congruence.
    + exists b. rewrite Hrun. split; [reflexivity|]. rewrite Hcons.
      split; [auto|]. intros [?|?]; congruence.
Qed.

Lemma in_room_store (st : Server) (c : string) (x x' : Client) (r : string) :
  objects st !! c = Some x →
  client_room x' = client_room x →
  in_room (mkServer (<[c := x']> (objects st)) (registry st) (playbacks st)) r = in_room st r.
Proof.
  intros Hx Hroom. apply in_room_objects. intros c0.
  destruct (decide (c = c0)) as [<-|Hne].
  - rewrite lookup_insert_eq, Hx. cbn. now rewrite Hroom.
  - now rewrite lookup_insert_ne.
Qed.

Lemma UpdateClientUsername_run (c n : string) (st : Server) (x : Client) :
  objects st !! c = Some x →
  registry_sound st →
  ∃ taken : bool,
    (taken = true ↔ ∃ c' x', registered st c' x' ∧ client_username x' = Some n) ∧
    UpdateClientUsername c n st =
      match ValidateClientUsername n with
      | Some err => mkRun st [] (Ret (Some err))
      | None =>
          if decide (client_username x = Some n)
          then mkRun st [Log INF "SOCKET CLIENT client requested a username update"]
                     (Ret (Some (Errorf "error: you already have that username" [])))
          else if taken
          then mkRun st [Log INF "SOCKET CLIENT client requested a username update"]
                     (Ret (Some (Errorf "error: the username %q is taken" [n])))
          else
            match UpdateUsername_refuses n with
            | Some err =>
                mkRun st [Log INF "SOCKET CLIENT client requested a username update";
                          Log ERR "SOCKET CLIENT failed to update username"]
                      (Ret (Some err))
            | None =>
                mkRun
                  (mkServer (<[c := mkClient (client_id x) (Some n) (client_room x)]> (objects st))
                            (registry st) (playbacks st))
                  ([Log INF "SOCKET CLIENT client requested a username update";
                    Log INF "SOCKET CLIENT sending updateusername event to client";
                    Broadcast To c (Event "updateusername" (mkResponse "" n NoExtra false)) [c]]
                   ++ match client_room x with
                      | Some r =>
                          [Broadcast From_ c
                             (Event "info_updateusername"
                                (mkResponse (client_id x) n
                                   (ExtraFields
                                      (<["oldUser" := VString (default "" (client_username x))]>
                                       (<["isNewUser" :=
                                            VString (if client_username x is Some _ then "" else "true")]> ∅)))
                                   true))
                             (filter (λ id, id ≠ c) (in_room st r))]
                      | None => []
                      end)
                  (Ret None)
            end
      end.
Proof.
  intros Hx Hsound.
  destruct (usernameTaken_run n (elements (registry st)) st) as (taken & Hrun & Htaken).
  { intros c' Hc'. apply Hsound. now apply elem_of_elements. }
  exists taken. split.
  - rewrite Htaken. unfold registered. split.
    + intros (c' & x' & Hin & Hx' & Hn). exists c', x'. now rewrite <- elem_of_elements.
    + intros (c' & x' & [Hin Hx'] & Hn). exists c', x'. now rewrite elem_of_elements.
  - unfold UpdateClientUsername. destruct (ValidateClientUsername n) as [err|]; [reflexivity|].
    erewrite bind_ret by (apply GetUsername_run; eassumption).
    destruct (client_username x) as [prev|] eqn:Hprev.
    + cbn [andb]. destruct (String.eqb_spec prev n) as [->|Hne].
      * rewrite decide_True by reflexivity. reflexivity.
      * rewrite decide_False by congruence.
        unfold UpdateUsername. destruct (UpdateUsername_refuses n) as [err|];
          destruct taken; unfold_ops; mrun; rewrite Hrun; mrun; try reflexivity.
        destruct (client_room x) as [r|] eqn:Hr; mrun; [|reflexivity].
        rewrite (in_room_store st c x) by (assumption || now rewrite Hr). reflexivity.
    + cbn [andb]. rewrite decide_False by discriminate.
      unfold UpdateUsername. destruct (UpdateUsername_refuses n) as [err|];
        destruct taken; unfold_ops; mrun; rewrite Hrun; mrun; try reflexivity.
      destruct (client_room x) as [r|] eqn:Hr; mrun; [|reflexivity].
      rewrite (in_room_store st c x) by (assumption || now rewrite Hr). reflexivity.
Qed.

Lemma held_by_other_iff (c n : string) (st : Server) (x : Client) :
  objects st !! c = Some x →
  client_username x ≠ Some n →
  (held_by_other st c n ↔ ∃ c' x', registered st c' x' ∧ client_username x' = Some n).
Proof.
  intros Hx Hne. unfold held_by_other. split.
  - intros (c' & x' & Hreg & _ & Hn). eauto.
  - intros (c' & x' & Hreg & Hn). exists c', x'. split; [exact Hreg|]. split; [|exact Hn].
    intros ->. destruct Hreg as [_ Hx']. congruence.
Qed.

Lemma registry_sound_store (st : Server) (c : string) (x' : Client) :
  registry_sound st →
  registry_sound (mkServer (<[c := x']> (objects st)) (registry st) (playbacks st)).
Proof.
  intros Hsound c' Hc'. cbn in *. destruct (decide (c = c')) as [<-|Hne].
  - rewrite lookup_insert_eq. eauto.
  - rewrite lookup_insert_ne by assumption. now apply Hsound.
Qed.

(** What a successful update leaves behind. *)
Lemma UpdateClientUsername_success (c n : string) (st : Server) (x : Client) :
  objects st !! c = Some x →
  registry_sound st →
  result (UpdateClientUsername c n st) = Ret None →
  ValidateClientUsername n = None ∧
  client_username x ≠ Some n ∧
  ¬ held_by_other st c n ∧
  UpdateUsername_refuses n = None ∧
  post (UpdateClientUsername c n st) =
    mkServer (<[c := mkClient (client_id x) (Some n) (client_room x)]> (objects st))
             (registry st) (playbacks st).
Proof.
  intros Hx Hsound. destruct (UpdateClientUsername_run c n st x Hx Hsound) as (taken & Htaken & ->).
  destruct (ValidateClientUsername n); [discriminate|].
  destruct (decide (client_username x = Some n)) as [|Hne]; [discriminate|].
  destruct taken; [discriminate|].
  destruct (UpdateUsername_refuses n); [discriminate|]. intros _.
  repeat split; try assumption.
  rewrite (held_by_other_iff c n st x Hx Hne), <- Htaken. discriminate.
Qed.

(** C4: [UpdateClientUsername] on a client [c] and a name [n] returns the
    validation error when [n] is malformed; otherwise fails when [n] is the
    username [c] has; otherwise fails with the "taken" error when another
    registered client holds [n]; otherwise sets the username of [c] in place
    (unless the client's own setter refuses the name, whose error it then
    returns).  A failure leaves the state as it was.  After a successful
    update of [c] to [n], the update of another registered client [c2] to [n]
    fails with the "taken" error and [c] keeps [n]. *)
Theorem C4_UpdateClientUsername_outcomes (c n : string) (st : Server) (x : Client) :
  objects st !! c = Some x →
  registry_sound st →
  let run := UpdateClientUsername c n st in
  (∀ err, ValidateClientUsername n = Some err →
          result run = Ret (Some err) ∧ post run = st) ∧
  (ValidateClientUsername n = None → client_username x = Some n →
     result run = Ret (Some (Errorf "error: you already have that username" [])) ∧
     post run = st) ∧
  (ValidateClientUsername n = None → client_username x ≠ Some n → held_by_other st c n →
     result run = Ret (Some (Errorf "error: the username %q is taken" [n])) ∧
     post run = st) ∧
  (ValidateClientUsername n = None → client_username x ≠ Some n → ¬ held_by_other st c n →
     match UpdateUsername_refuses n with
     | None =>
         result run = Ret None ∧
         post run =
           mkServer (<[c := mkClient (client_id x) (Some n) (client_room x)]> (objects st))
                    (registry st) (playbacks st)
     | Some err => result run = Ret (Some err) ∧ post run = st
     end) ∧
  (∀ c2 x2, c ∈ registry st → registered st c2 x2 → c2 ≠ c → result run = Ret None →
     let run2 := UpdateClientUsername c2 n (post run) in
     result run2 = Ret (Some (Errorf "error: the username %q is taken" [n])) ∧
     client_username <$> objects (post run2) !! c = Some (Some n)).
Proof.
  intros Hx Hsound run.
  destruct (UpdateClientUsername_run c n st x Hx Hsound) as (taken & Htaken & Hrun).
  split; [|split; [|split; [|split]]].
  - intros err Hvalid. subst run. rewrite Hrun, Hvalid. auto.
  - intros Hvalid Hsame. subst run. rewrite Hrun, Hvalid. now rewrite decide_True.
  - intros Hvalid Hne Hheld. subst run. rewrite Hrun, Hvalid.
    rewrite decide_False by assumption.
    apply (held_by_other_iff c n st x Hx Hne), Htaken in Hheld. now rewrite Hheld.
  - intros Hvalid Hne Hnone. subst run. rewrite Hrun, Hvalid. rewrite decide_False by assumption.
    rewrite (held_by_other_iff c n st x Hx Hne), <- Htaken in Hnone.
    destruct taken; [congruence|]. now destruct (UpdateUsername_refuses n).
  - intros c2 x2 Hc [Hc2 Hx2] Hne Hok.
    destruct (UpdateClientUsername_success c n st x Hx Hsound Hok)
      as (Hvalid & Hname & Hother & Hset & Hpost).
    subst run. rewrite Hpost. clear Hrun Htaken taken.
    set (st' := mkServer _ _ _).
    assert (objects st' !! c2 = Some x2) as Hx2' by (cbn; now rewrite lookup_insert_ne).
    assert (registry_sound st') as Hsound' by now apply registry_sound_store.
    assert (client_username x2 ≠ Some n) as Hname2.
    { intros Hn2. apply Hother. exists c2, x2. now repeat split. }
    destruct (UpdateClientUsername_run c2 n st' x2 Hx2' Hsound') as (taken & Htaken & Hrun).
    assert (taken = true) as ->.
    { apply Htaken. exists c, (mkClient (client_id x) (Some n) (client_room x)).
      split; [split; [exact Hc | apply lookup_insert_eq] | reflexivity]. }
    cbv zeta. rewrite Hrun, Hvalid. rewrite decide_False by assumption.
    split; [reflexivity|]. cbn. now rewrite lookup_insert_eq.
Qed.

(** *** The username listener *)

Lemma GetClient_registered (c : string) (st : Server) :
  c ∈ registry st → GetClient c st = mkRun st [] (Ret (Some c)).
Proof. intros Hc. unfold GetClient, gets. now rewrite decide_True. Qed.

(** C9: when the username update of a registered client in a room
    succeeds, the client is sent [updateusername] with the new name in
    [From], and the other clients of its room are sent
    [info_updateusername] with the client's id, the new name, and in
    [Extra] the previous name under [oldUser] and, under [isNewUser], the
    mark of a client that had no name; when the update fails, the error goes
    to the client alone and nothing changes. *)
Theorem C9_username_change_events (conn : Socket) (data : gmap string string) (n : string)
        (st : Server) (x : Client) (r : string) :
  registered st (socket_id conn) x →
  registry_sound st →
  data !! "user" = Some n →
  client_room x = Some r →
  let c := socket_id conn in
  let upd := UpdateClientUsername c n st in
  let run := on_request_updateusername conn data st in
  (result upd = Ret None →
     broadcasts (trace run) =
       [Broadcast To c (Event "updateusername" (mkResponse "" n NoExtra false)) [c];
        Broadcast From_ c
          (Event "info_updateusername"
             (mkResponse (client_id x) n
                (ExtraFields
                   (<["oldUser" := VString (default "" (client_username x))]>
                    (<["isNewUser" :=
                         VString (if client_username x is Some _ then "" else "true")]> ∅)))
                true))
          (filter (λ id, id ≠ c) (in_room st r))]) ∧
  (∀ err, result upd = Ret (Some err) →
     broadcasts (trace run) = [Broadcast To c (ErrorText err) [c]] ∧ post run = st).
Proof.
  intros [Hc Hx] Hsound Hdata Hr c upd run. subst c upd run.
  unfold on_request_updateusername. rewrite Hdata.
  erewrite bind_ret by now apply GetClient_registered.
  destruct (UpdateClientUsername_run (socket_id conn) n st x Hx Hsound)
    as (taken & _ & Hrun).
  unfold bind. rewrite Hrun, Hr. clear Hrun.
  destruct (ValidateClientUsername n) as [e|].
  { cbn. split; [discriminate|]. now intros err [= ->]. }
  destruct (decide (client_username x = Some n)).
  { cbn. split; [discriminate|]. now intros err [= ->]. }
  destruct taken.
  { cbn. split; [discriminate|]. now intros err [= ->]. }
  destruct (UpdateUsername_refuses n) as [e|].
  { cbn. split; [discriminate|]. now intros err [= ->]. }
  cbn. split; [reflexivity | discriminate].
Qed.

(** *** The chat listener *)

Lemma detect_Command_inv (c : string) (data : gmap string Value) (name : string)
      (args : list string) :
  detect data = Ret (Command name args) →
  ∃ command segs,
    ParseCommandMessage c data = Ret (None, command, true) ∧
    commandSegments command = (segs, args) ∧
    segs !! 0%nat = Some name.
Proof.
  unfold detect. change (ParseCommandMessage "" data) with (ParseCommandMessage c data).
  destruct (ParseCommandMessage c data) as [[[[err|] command] [|]]|]; try discriminate.
  destruct (commandSegments command) as [segs args'] eqn:Hsegs.
  destruct (segs !! 0%nat) as [name'|] eqn:Hname; [|discriminate].
  intros [= -> ->]. eauto.
Qed.

Lemma detect_NotACommand_inv (c : string) (data : gmap string Value) :
  detect data = Ret NotACommand →
  ∃ command, ParseCommandMessage c data = Ret (None, command, false).
Proof.
  unfold detect. change (ParseCommandMessage "" data) with (ParseCommandMessage c data).
  destruct (ParseCommandMessage c data) as [[[[err|] command] [|]]|]; try discriminate.
  - destruct (commandSegments command) as [segs args']. destruct (segs !! 0%nat); discriminate.
  - eauto.
Qed.

Lemma reached_broadcasts (tr : list Effect) (id : string) :
  reached tr id ↔ reached (broadcasts tr) id.
Proof.
  unfold reached. induction tr as [|[lvl line|how c msg rs] tr IH]; cbn [broadcasts].
  - reflexivity.
  - rewrite <- IH. split; intros (how & c & msg & rs & Hin & Hid); exists how, c, msg, rs.
    + apply elem_of_cons in Hin as [Hin|Hin]; [discriminate | auto].
    + split; [apply elem_of_cons; auto | auto].
  - split; intros (how' & c' & msg' & rs' & Hin & Hid).
    + apply elem_of_cons in Hin as [Hin|Hin].
      * exists how', c', msg', rs'. split; [apply elem_of_cons; auto | auto].
      * destruct (proj1 IH) as (h & c0 & m & l & Hin' & Hid'); [now eauto 8|].
        exists h, c0, m, l. split; [apply elem_of_cons; auto | auto].
    + apply elem_of_cons in Hin as [Hin|Hin].
      * exists how', c', msg', rs'. split; [apply elem_of_cons; auto | auto].
      * destruct (proj2 IH) as (h & c0 & m & l & Hin' & Hid'); [now eauto 8|].
        exists h, c0, m, l. split; [apply elem_of_cons; auto | auto].
Qed.

Lemma on_request_chatmessage_command_run (conn : Socket) (data : gmap string Value)
      (st : Server) (name : string) (args : list string) :
  socket_id conn ∈ registry st →
  detect data = Ret (Command name args) →
  let c := socket_id conn in
  let exec := ExecuteCommand name args c st in
  on_request_chatmessage conn data st =
    mkRun (post exec)
      (match data !! "user" with
       | Some _ => [Log INFO "SOCKET CLIENT client requested a chat message broadcast"]
       | None => []
       end
       ++ Log INFO "SOCKET CLIENT interpreting chat message as user command"
       :: trace exec
       ++ match result exec with
          | Ret (_, Some err) =>
              [Log ERR "SOCKET CLIENT unable to execute command";
               Broadcast To c (SystemText err) [c]]
          | Ret (text, None) =>
              if decide (text = "") then [] else [Broadcast To c (SystemText text) [c]]
          | Panic _ => []
          end)
      (match result exec with Ret _ => Ret tt | Panic msg => Panic msg end).
Proof.
  intros Hc Hdet c exec. subst c exec.
  destruct (detect_Command_inv (socket_id conn) _ _ _ Hdet)
    as (command & segs & Hparse & Hsegs & Hname).
  unfold on_request_chatmessage.
  destruct (data !! "user");
    (erewrite bind_ret by reflexivity);
    (erewrite bind_ret by now apply GetClient_registered);
    unfold lift; unfold bind at 1; rewrite Hparse; rewrite Hsegs;
    unfold bind at 1; unfold log at 1, emit at 1;
    unfold bind at 1; unfold index_slice; rewrite Hname; unfold ret at 1;
    unfold bind at 1;
    (destruct (ExecuteCommand name args (socket_id conn) st) as [st1 t1 [[text [err|]]|msg]];
     [| destruct text as [|a text] |]);
    cbn; rewrite ?app_nil_r; reflexivity.
Qed.

Lemma on_request_chatmessage_command (conn : Socket) (data : gmap string Value) (st : Server)
      (name : string) (args : list string) :
  socket_id conn ∈ registry st →
  detect data = Ret (Command name args) →
  let c := socket_id conn in
  let exec := ExecuteCommand name args c st in
  let run := on_request_chatmessage conn data st in
  post run = post exec ∧
  result run = match result exec with Ret _ => Ret tt | Panic msg => Panic msg end ∧
  broadcasts (trace run) = broadcasts (trace exec) ++ commandReply c (result exec).
Proof.
  intros Hc Hdet c exec run. subst c exec run.
  rewrite (on_request_chatmessage_command_run conn data st name args Hc Hdet).
  cbn [post result trace]. split; [reflexivity|]. split; [reflexivity|].
  rewrite broadcasts_app.
  replace (broadcasts match data !! "user" with
                      | Some _ => [Log INFO "SOCKET CLIENT client requested a chat message broadcast"]
                      | None => []
                      end) with (@nil Effect) by now destruct (data !! "user").
  cbn [app broadcasts]. rewrite broadcasts_app. f_equal. unfold commandReply.
  destruct (result (ExecuteCommand name args (socket_id conn) st)) as [[text [err|]]|];
    [reflexivity | now destruct (decide (text = "")) | reflexivity].
Qed.

(** C7, amended: a chat message of a registered client that parses as a
    command is executed once, from the stores as they are, and what the
    execution does to the stores and what it sends is kept; the listener then
    sends the command's error, or its result text when that is not empty, to
    the sender alone as a system message and sends nothing else, so that
    another client is reached exactly when the command's own execution
    reaches it.  A message that parses as no command is broadcast, with the
    payload as it came, to the whole room of the sender as a [chatmessage]
    event, and the stores stay as they are. *)
Theorem C7_chat_message_dispatch (conn : Socket) (data : gmap string Value) (st : Server)
        (x : Client) :
  registered st (socket_id conn) x →
  let c := socket_id conn in
  let run := on_request_chatmessage conn data st in
  (∀ name args, detect data = Ret (Command name args) →
     let exec := ExecuteCommand name args c st in
     post run = post exec ∧
     result run = match result exec with Ret _ => Ret tt | Panic msg => Panic msg end ∧
     broadcasts (trace run) = broadcasts (trace exec) ++ commandReply c (result exec) ∧
     (∀ id, id ≠ c → (reached (trace run) id ↔ reached (trace exec) id))) ∧
  (detect data = Ret NotACommand →
     ∀ r, client_room x = Some r →
       result run = Ret tt ∧
       broadcasts (trace run) =
         [Broadcast All c (Event "chatmessage" (ResponseFromClientData data)) (in_room st r)] ∧
       post run = st).
Proof.
  intros [Hc Hx] c run. subst c run. split.
  - intros name args Hdet exec.
    destruct (on_request_chatmessage_command conn data st name args Hc Hdet)
      as (Hpost & Hres & Hrun).
    split; [exact Hpost|]. split; [exact Hres|]. split; [exact Hrun|].
    intros id Hid. rewrite !(reached_broadcasts (trace _)), Hrun. split.
    + intros (how & c & msg & rs & Hin & Hrs). apply elem_of_app in Hin as [Hin|Hin].
      * exists how, c, msg, rs. auto.
      * exfalso. unfold commandReply in Hin.
        destruct (result (ExecuteCommand name args (socket_id conn) st)) as [[text [err|]]|];
          [| destruct (decide (text = "")) |];
          repeat (apply elem_of_cons in Hin as [Hin|Hin];
                  [injection Hin as -> -> -> ->; apply list_elem_of_singleton in Hrs;
                   congruence|]);
          now apply elem_of_nil in Hin.
    + intros (how & c & msg & rs & Hin & Hrs). exists how, c, msg, rs.
      split; [apply elem_of_app; now left | exact Hrs].
  - intros Hdet r Hr.
    destruct (detect_NotACommand_inv (socket_id conn) _ Hdet) as (command & Hparse).
    assert (command = "") as ->.
    { unfold ParseCommandMessage in Hparse.
      destruct (data !! "message") as [[[|b s]| | |]|]; try discriminate.
      destruct (negb _); now injection Hparse. }
    unfold on_request_chatmessage.
    destruct (data !! "user");
      (erewrite bind_ret by reflexivity);
      (erewrite bind_ret by now apply GetClient_registered);
      unfold lift; unfold bind at 1; rewrite Hparse;
      unfold_ops; mrun; rewrite Hr; mrun; now destruct st.
Qed.

(** *** Command detection *)

Lemma chat_message (message : string) : chat message !! "message" = Some (VString message).
Proof. apply lookup_singleton_eq. Qed.

Lemma detect_marker (rest : string) :
  detect (chat (String "/" rest)) =
    match strings.Split rest " " with
    | name :: args => Ret (Command name args)
    | [] => Panic "index out of range"
    end.
Proof.
  unfold detect, ParseCommandMessage. rewrite chat_message. cbn -[strings.Split].
  destruct (strings.Split rest " ") as [|name [|arg args]]; reflexivity.
Qed.

Lemma detect_other (b : ascii) (rest : string) :
  b ≠ "/"%char → detect (chat (String b rest)) = Ret NotACommand.
Proof.
  intros Hb. unfold detect, ParseCommandMessage. rewrite chat_message.
  destruct (String.eqb_spec (String b "") "/") as [[= ->]|_]; [congruence | reflexivity].
Qed.

(** C1, amended: a non-empty message is a command exactly when its first
    character is [/]; the text behind the marker, cut at every single space,
    gives the command name (the first segment) and the arguments (the other
    segments, none if there is no space): joined again with single spaces the
    segments give that text back, and none of them contains a space.
    ["/play"] is the command ["play"] without arguments, ["hello there"] is
    no command, and ["/"] is the command with the empty name and no
    arguments. *)
Theorem C1_detect_cut_at_spaces :
  (∀ b rest, b ≠ "/"%char → detect (chat (String b rest)) = Ret NotACommand) ∧
  (∀ name args,
     Forall (λ p, ¬ strings.Contains p " ") (name :: args) →
     detect (chat ("/" +:+ strings.Join (name :: args) " ")) = Ret (Command name args)) ∧
  (∀ rest, ∃ name args,
     detect (chat (String "/" rest)) = Ret (Command name args) ∧
     strings.Join (name :: args) " " = rest ∧
     Forall (λ p, ¬ strings.Contains p " ") (name :: args)) ∧
  detect (chat "/play") = Ret (Command "play" []) ∧
  detect (chat "hello there") = Ret NotACommand ∧
  detect (chat "/") = Ret (Command "" []).
Proof.
  split; [exact detect_other|]. split; [|split].
  - intros name args Hall. rewrite append_cons, append_empty_l, detect_marker.
    now rewrite (Split_Join_byte " "%char) by (discriminate || assumption).
  - intros rest. rewrite detect_marker.
    pose proof (Join_Split rest " " ltac:(discriminate)) as Hjoin.
    pose proof (Split_no_sep rest " " ltac:(discriminate)) as Hall.
    destruct (strings.Split rest " ") as [|name args] eqn:E.
    + now apply Split_nonempty in E.
    + eauto.
  - rewrite !detect_marker, detect_other by discriminate. auto.
Qed.

Lemma ParseCommandMessage_empty (c : string) :
  ParseCommandMessage c (chat "") = Panic "index out of range [0] with length 0".
Proof. unfold ParseCommandMessage. now rewrite chat_message. Qed.

(** C10: on the chat payload whose message is the empty string,
    [ParseCommandMessage] indexes the first byte of the message and panics,
    and the chat listener of a registered client is left by that panic
    before anything is sent. *)
Theorem C10_ParseCommandMessage_empty_message (c : string) :
  ParseCommandMessage c (chat "") = Panic "index out of range [0] with length 0" ∧
  on_request_chatmessage socket_A (chat "") server_room_x =
    mkRun server_room_x [] (Panic "index out of range [0] with length 0").
Proof.
  split; [apply ParseCommandMessage_empty|].
  unfold on_request_chatmessage.
  assert (chat "" !! "user" = None) as -> by (apply lookup_singleton_ne; discriminate).
  erewrite bind_ret by reflexivity.
  erewrite bind_ret by (apply GetClient_registered; cbn; set_solver).
  unfold lift. rewrite ParseCommandMessage_empty. reflexivity.
Qed.

(** *** The resync listener of a connection *)

Lemma on_request_streamsync_run (conn : Socket) (data : gmap string Value) (st : Server)
      (x : Client) (r : string) :
  registered st (socket_id conn) x →
  client_room x = Some r →
  let c := socket_id conn in
  let sent s :=
    [Log INFO "SOCKET CLIENT client requested a streamsync";
     Broadcast To c (Event "streamsync" (mkResponse (client_id x) "" (ExtraStatus s) false)) [c]] in
  on_request_streamsync conn data st =
    match playbacks st !! r with
    | Some pb => mkRun st (sent (statusOf pb)) (Ret tt)
    | None =>
        match GetStatus_nil with
        | Ret s => mkRun st (sent s) (Ret tt)
        | Panic msg =>
            mkRun st [Log INFO "SOCKET CLIENT client requested a streamsync"] (Panic msg)
        end
    end.
Proof.
  intros [Hc Hx] Hr c sent. subst c sent. unfold on_request_streamsync.
  erewrite bind_ret by reflexivity.
  erewrite bind_ret by now apply GetClient_registered.
  unfold GetStatus. unfold_ops. mrun. rewrite Hr. mrun.
  destruct (playbacks st !! r) as [pb|] eqn:E; mrun; [reflexivity|].
  destruct GetStatus_nil; reflexivity.
Qed.

(** Were a room's playback state missing, the branch of lines 146 to 148
    would do nothing about it: on the stores where client A is in room ["x"]
    and no playback state exists, the listener goes on to take the status of
    the missing playback state, and either panics there or sends A a
    [streamsync] made from it. *)
Lemma streamsync_without_playback_state :
  on_request_streamsync socket_A ∅ server_no_playback =
    match GetStatus_nil with
    | Ret s =>
        mkRun server_no_playback
          [Log INFO "SOCKET CLIENT client requested a streamsync";
           Broadcast To "A" (Event "streamsync" (mkResponse "A" "" (ExtraStatus s) false)) ["A"]]
          (Ret tt)
    | Panic msg =>
        mkRun server_no_playback [Log INFO "SOCKET CLIENT client requested a streamsync"]
          (Panic msg)
    end.
Proof.
  rewrite (on_request_streamsync_run socket_A ∅ server_no_playback
             (mkClient "A" None (Some "x")) "x").
  - reflexivity.
  - split; [cbn; set_solver | reflexivity].
  - reflexivity.
Qed.

(** ** The other listeners *)

Lemma GetClient_unregistered (c : string) (st : Server) :
  c ∉ registry st → GetClient c st = mkRun st [] (Ret None).
Proof. intros Hc. unfold GetClient, gets. now rewrite decide_False. Qed.

Lemma DestroyClient_registered (conn : Socket) (st : Server) :
  socket_id conn ∈ registry st →
  DestroyClient conn st =
    mkRun (mkServer (objects st) (registry st ∖ {[socket_id conn]}) (playbacks st)) [] (Ret None).
Proof. intros Hc. unfold DestroyClient. now rewrite decide_True. Qed.

Lemma DestroyClient_unregistered (conn : Socket) (st : Server) :
  socket_id conn ∉ registry st →
  DestroyClient conn st = mkRun st [] (Ret (Some (ErrClientNotFound (socket_id conn)))).
Proof. intros Hc. unfold DestroyClient. now rewrite decide_False. Qed.

(** *** Disconnection *)

Lemma on_disconnection_run (conn : Socket) (st : Server) (x : Client) :
  registered st (socket_id conn) x →
  let c := socket_id conn in
  on_disconnection conn st =
    mkRun (mkServer (objects st) (registry st ∖ {[c]}) (playbacks st))
      (Log INFO "DCONN SOCKET client has disconnected"
       :: match client_username x, client_room x with
          | Some n, Some r =>
              [Broadcast From_ c (Event "info_clientleft" (mkResponse c n NoExtra false))
                 (filter (λ id, id ≠ c) (in_room st r))]
          | _, _ => []
          end)
      (Ret tt).
Proof.
  only_stated. intros [Hc Hx] c. subst c. unfold on_disconnection, DeregisterClient.
  unfold_ops. mrun. case_decide; [|contradiction]. mrun.
  destruct (client_username x) as [n|]; mrun;
    [destruct (client_room x) as [r|]; mrun|];
    (case_decide; [|contradiction]); reflexivity.
Qed.

Lemma on_disconnection_unregistered (conn : Socket) (st : Server) :
  socket_id conn ∉ registry st →
  on_disconnection conn st =
    mkRun st [Log INFO "DCONN SOCKET client has disconnected"; Log ERR "SOCKET"] (Ret tt).
Proof.
  only_stated. intros Hc. unfold on_disconnection, DeregisterClient.
  unfold_ops. mrun. case_decide; [contradiction|]. mrun.
  case_decide; [contradiction|]. reflexivity.
Qed.

(** *** What each listener leaves in the stores *)

Ltac case_stuck :=
  match goal with
  | |- context [match ?e with _ => _ end] =>
      lazymatch e with
      | context [match _ with _ => _ end] => fail
      | _ => destruct e eqn:?
      end
  end.

Lemma on_request_streamsync_post (conn : Socket) (data : gmap string Value) (st : Server) :
  post (on_request_streamsync conn data st) = st.
Proof.
  unfold on_request_streamsync, GetStatus. unfold_ops. mrun.
  repeat (case_stuck; mrun); reflexivity.
Qed.

Lemma on_request_chatmessage_post (conn : Socket) (data : gmap string Value) (st : Server) :
  post (on_request_chatmessage conn data st) = st ∨
  ∃ name args,
    socket_id conn ∈ registry st ∧
    post (on_request_chatmessage conn data st) =
      post (ExecuteCommand name args (socket_id conn) st).
Proof.
  unfold on_request_chatmessage.
  assert (∀ k : M unit,
            post (bind match data !! "user" with
                       | Some _ => log INFO "SOCKET CLIENT client requested a chat message broadcast"
                       | None => ret tt
                       end (λ _, k) st) = post (k st)) as Hlog.
  { intros k. destruct (data !! "user"); unfold_ops; cbn; now destruct (k st). }
  rewrite Hlog. clear Hlog.
  destruct (decide (socket_id conn ∈ registry st)) as [Hc|Hc].
  2:{ left. erewrite bind_ret by now apply GetClient_unregistered. reflexivity. }
  erewrite bind_ret by now apply GetClient_registered.
  unfold lift.
  destruct (ParseCommandMessage (socket_id conn) data) as [[[[err|] command] [|]]|];
    try (left; unfold_ops; mrun; repeat (case_stuck; mrun); reflexivity).
  destruct (commandSegments command) as [segs args] eqn:Hsegs.
  destruct (segs !! 0%nat) as [name|] eqn:Hname.
  - right. exists name, args. split; [exact Hc|].
    unfold bind at 1. rewrite Hsegs. unfold_ops. mrun.
    destruct (ExecuteCommand name args (socket_id conn) st) as [st1 t1 [[text [e|]]|]];
      mrun; try reflexivity.
    destruct text; reflexivity.
  - left. unfold bind at 1. rewrite Hsegs. unfold_ops. mrun. reflexivity.
Qed.

Lemma on_request_updateusername_post (conn : Socket) (data : gmap string string) (st : Server) :
  registry_sound st →
  post (on_request_updateusername conn data st) = st ∨
  ∃ n x,
    registered st (socket_id conn) x ∧
    (∀ c' x', registered st c' x' → client_username x' ≠ Some n) ∧
    post (on_request_updateusername conn data st) =
      mkServer (<[socket_id conn := mkClient (client_id x) (Some n) (client_room x)]> (objects st))
               (registry st) (playbacks st).
Proof.
  intros Hsound. unfold on_request_updateusername.
  destruct (data !! "user") as [n|]; [|now left].
  destruct (decide (socket_id conn ∈ registry st)) as [Hc|Hc].
  2:{ left. erewrite bind_ret by now apply GetClient_unregistered.
      unfold_ops. destruct BroadcastErrorTo_nil; reflexivity. }
  erewrite bind_ret by now apply GetClient_registered.
  destruct (Hsound _ Hc) as [x Hx].
  destruct (UpdateClientUsername_run (socket_id conn) n st x Hx Hsound) as (taken & Htaken & Hrun).
  unfold bind. rewrite Hrun. clear Hrun.
  destruct (ValidateClientUsername n); [now left|].
  destruct (decide (client_username x = Some n)); [now left|].
  destruct taken eqn:Ht; [now left|].
  destruct (UpdateUsername_refuses n); [now left|].
  right. exists n, x. split; [now split|]. split; [|reflexivity].
  intros c' x' Hreg Hn. assert (false = true) by (apply Htaken; eauto). discriminate.
Qed.

(** *** The stores stay in order *)

Lemma stores_ok_leave (st : Server) (gone : gset string) :
  stores_ok st →
  stores_ok (mkServer (objects st) (registry st ∖ gone) (playbacks st)).
Proof.
  only_stated. intros (Hsound & Huniq & Hone & Hrooms).
  assert (∀ c x, registered (mkServer (objects st) (registry st ∖ gone) (playbacks st)) c x →
                 registered st c x) as Hreg.
  { intros c x [Hc Hx]. cbn in *. apply elem_of_difference in Hc as [Hc _]. now split. }
  split; [|split; [|split]].
  - intros c Hc. cbn in *. apply elem_of_difference in Hc as [Hc _]. now apply Hsound.
  - intros c1 c2 x1 x2 n H1 H2. apply Huniq; auto.
  - exact Hone.
  - intros c x H. exact (Hrooms c x (Hreg _ _ H)).
Qed.

Lemma stores_ok_rename (st : Server) (c n : string) (x : Client) :
  stores_ok st →
  registered st c x →
  (∀ c' x', registered st c' x' → client_username x' ≠ Some n) →
  stores_ok (mkServer (<[c := mkClient (client_id x) (Some n) (client_room x)]> (objects st))
                      (registry st) (playbacks st)).
Proof.
  only_stated. intros (Hsound & Huniq & Hone & Hrooms) [Hc Hx] Hfree.
  set (st' := mkServer _ _ _).
  assert (∀ c' x', registered st' c' x' → c' ≠ c → registered st c' x') as Hother.
  { intros c' x' [Hc' Hx'] Hne. cbn in *. rewrite lookup_insert_ne in Hx' by congruence.
    now split. }
  assert (∀ x', registered st' c x' → x' = mkClient (client_id x) (Some n) (client_room x))
    as Hself.
  { intros x' [_ Hx']. cbn in Hx'. rewrite lookup_insert_eq in Hx'. congruence. }
  split; [|split; [|split]].
  - now apply registry_sound_store.
  - intros c1 c2 x1 x2 m H1 H2 Hn1 Hn2.
    destruct (decide (c1 = c)) as [->|Hne1], (decide (c2 = c)) as [->|Hne2].
    + reflexivity.
    + exfalso. apply Hself in H1. subst x1. cbn in Hn1. injection Hn1 as <-.
      exact (Hfree _ _ (Hother _ _ H2 Hne2) Hn2).
    + exfalso. apply Hself in H2. subst x2. cbn in Hn2. injection Hn2 as <-.
      exact (Hfree _ _ (Hother _ _ H1 Hne1) Hn1).
    + eapply Huniq; eauto.
  - exact Hone.
  - intros c' x' H. destruct (decide (c' = c)) as [->|Hne].
    + apply Hself in H. subst x'. cbn. exact (Hrooms c x (conj Hc Hx)).
    + exact (Hrooms c' x' (Hother _ _ H Hne)).
Qed.

Lemma stores_ok_join (st : Server) (id r : string) :
  stores_ok st →
  stores_ok
    (mkServer (<[id := mkClient id None (Some r)]> (objects st)) ({[id]} ∪ registry st)
       (match playbacks st !! r with
        | Some _ => playbacks st
        | None => <[r := mkStreamPlayback None 0 false [StreamsyncTick r id]]> (playbacks st)
        end)).
Proof.
  only_stated. intros (Hsound & Huniq & Hone & Hrooms).
  set (pbs := match playbacks st !! r with Some _ => _ | None => _ end).
  set (st' := mkServer _ _ _).
  assert (∀ c x, registered st' c x → c ≠ id → registered st c x) as Hother.
  { intros c x [Hc Hx] Hne. cbn in *. rewrite lookup_insert_ne in Hx by congruence.
    split; [|exact Hx]. apply elem_of_union in Hc as [Hc|Hc]; [|exact Hc].
    apply elem_of_singleton in Hc. congruence. }
  assert (∀ x, registered st' id x → x = mkClient id None (Some r)) as Hself.
  { intros x [_ Hx]. cbn in Hx. rewrite lookup_insert_eq in Hx. congruence. }
  assert (∀ r', is_Some (playbacks st !! r') → is_Some (pbs !! r')) as Hkeep.
  { intros r' Hr'. subst pbs. destruct (playbacks st !! r) eqn:E; [exact Hr'|].
    destruct (decide (r = r')) as [<-|Hne]; [rewrite lookup_insert_eq; eauto|].
    now rewrite lookup_insert_ne. }
  split; [|split; [|split]].
  - intros c Hc. cbn in *. destruct (decide (id = c)) as [<-|Hne].
    + rewrite lookup_insert_eq. eauto.
    + rewrite lookup_insert_ne by assumption. apply Hsound.
      apply elem_of_union in Hc as [Hc|Hc]; [|exact Hc].
      apply elem_of_singleton in Hc. congruence.
  - intros c1 c2 x1 x2 n H1 H2 Hn1 Hn2.
    destruct (decide (c1 = id)) as [->|Hne1];
      [apply Hself in H1; subst x1; discriminate|].
    destruct (decide (c2 = id)) as [->|Hne2];
      [apply Hself in H2; subst x2; discriminate|].
    eapply Huniq; eauto.
  - intros r' pb Hpb. cbn in Hpb. subst pbs. destruct (playbacks st !! r) eqn:E.
    + now apply Hone.
    + destruct (decide (r = r')) as [<-|Hne].
      * rewrite lookup_insert_eq in Hpb. injection Hpb as <-. eauto.
      * rewrite lookup_insert_ne in Hpb by assumption. now apply Hone.
  - intros c x H. destruct (decide (c = id)) as [->|Hne].
    + apply Hself in H. subst x. exists r. split; [reflexivity|]. cbn. subst pbs.
      destruct (playbacks st !! r) eqn:E; [rewrite E; eauto | rewrite lookup_insert_eq; eauto].
    + destruct (Hrooms c x (Hother _ _ H Hne)) as (r' & Hr' & Hpb). exists r'.
      split; [exact Hr' | now apply Hkeep].
Qed.

Lemma stores_ok_serve (ev : Incoming) (st : Server) :
  (∀ name args c st0, c ∈ registry st0 → stores_ok st0 →
                      stores_ok (post (ExecuteCommand name args c st0))) →
  stores_ok st → stores_ok (post (serve ev st)).
Proof.
  intros Hexec Hok. destruct ev as [conn|conn|conn data|conn data|conn data]; cbn [serve].
  - destruct (HandleClientConnection_post conn st) as [-> _]. rewrite RegisterClient_post.
    now apply stores_ok_join.
  - destruct (decide (socket_id conn ∈ registry st)) as [Hc|Hc].
    + destruct (proj1 Hok _ Hc) as [x Hx].
      rewrite (on_disconnection_run conn st x) by now split. now apply stores_ok_leave.
    + now rewrite on_disconnection_unregistered.
  - destruct (on_request_updateusername_post conn data st (proj1 Hok))
      as [->|(n & x & Hreg & Hfree & ->)]; [exact Hok|].
    now apply stores_ok_rename.
  - destruct (on_request_chatmessage_post conn data st) as [->|(name & args & Hc & ->)];
      [exact Hok | now apply Hexec].
  - now rewrite on_request_streamsync_post.
Qed.

Lemma stores_ok_serveAll (evs : list Incoming) (st : Server) :
  (∀ name args c st0, c ∈ registry st0 → stores_ok st0 →
                      stores_ok (post (ExecuteCommand name args c st0))) →
  stores_ok st → stores_ok (serveAll evs st).
Proof.
  intros Hexec. revert st. induction evs as [|ev evs IH]; intros st Hok; [exact Hok|].
  cbn [serveAll]. apply IH. now apply stores_ok_serve.
Qed.

Lemma stores_ok_empty : stores_ok server_empty.
Proof.
  only_stated. split; [|split; [|split]].
  - intros c Hc. cbn in Hc. now apply not_elem_of_empty in Hc.
  - intros c1 c2 x1 x2 n [Hc _]. cbn in Hc. now apply not_elem_of_empty in Hc.
  - intros r pb Hpb. cbn in Hpb. now rewrite lookup_empty in Hpb.
  - intros c x [Hc _]. cbn in Hc. now apply not_elem_of_empty in Hc.
Qed.


(** ** Further properties of the listeners *)

(** X1: when a registered client disconnects, it is unregistered and nothing
    else in the stores changes, the playback state of its room included; the
    other clients of its room are sent [info_clientleft] with its id and
    username if it had a username and a room, and nothing is sent
    otherwise. *)
Theorem disconnection_unregisters_and_notifies (conn : Socket) (st : Server) (x : Client) :
  registered st (socket_id conn) x →
  let c := socket_id conn in
  let run := on_disconnection conn st in
  result run = Ret tt ∧
  objects (post run) = objects st ∧
  playbacks (post run) = playbacks st ∧
  (∀ c', c' ∈ registry (post run) ↔ c' ∈ registry st ∧ c' ≠ c) ∧
  broadcasts (trace run) =
    match client_username x, client_room x with
    | Some n, Some r =>
        [Broadcast From_ c (Event "info_clientleft" (mkResponse c n NoExtra false))
           (filter (λ id, id ≠ c) (in_room st r))]
    | _, _ => []
    end ∧
  ¬ reached (trace run) c.
Proof.
  only_stated. intros Hreg c run. subst c run. rewrite (on_disconnection_run conn st x Hreg).
  cbn [result post trace objects playbacks registry].
  split; [reflexivity|]. split; [reflexivity|]. split; [reflexivity|]. split; [|split].
  - intros c'. rewrite elem_of_difference, elem_of_singleton. tauto.
  - cbn. now destruct (client_username x), (client_room x).
  - intros (how & c0 & msg & rs & Hin & Hrs).
    apply elem_of_cons in Hin as [Hin|Hin]; [discriminate|].
    destruct (client_username x), (client_room x); try now apply elem_of_nil in Hin.
    apply list_elem_of_singleton in Hin. simplify_eq.
    apply list_elem_of_filter in Hrs as [Hne _]. now apply Hne.
Qed.

(** X2: an event other than the connection, coming from a connection that
    the client handler does not know, changes nothing in the stores and
    delivers nothing to anyone. *)
Theorem unknown_connection_is_ignored (ev : Incoming) (st : Server) :
  socket_id (sender ev) ∉ registry st →
  is_connection ev = false →
  post (serve ev st) = st ∧ broadcasts (trace (serve ev st)) = [].
Proof.
  intros Hc Hev. destruct ev as [conn|conn|conn data|conn data|conn data];
    try discriminate; cbn [serve sender] in *.
  - now rewrite on_disconnection_unregistered.
  - unfold on_request_updateusername. destruct (data !! "user"); [|auto].
    erewrite bind_ret by now apply GetClient_unregistered.
    unfold_ops. destruct BroadcastErrorTo_nil; auto.
  - unfold on_request_chatmessage.
    destruct (data !! "user");
      (erewrite bind_ret by reflexivity);
      (erewrite bind_ret by now apply GetClient_unregistered); auto.
  - unfold on_request_streamsync.
    erewrite bind_ret by reflexivity.
    erewrite bind_ret by now apply GetClient_unregistered. auto.
Qed.

(** X3: payloads that lack their field.  A username request without the
    [user] field is dropped with a log line, whoever sent it.  A chat payload
    of a registered client without the [message] field, or whose [message] is
    not a string, is answered to the sender alone with the parse error as a
    system message; the stores stay as they are and the room sees
    nothing. *)
Theorem payloads_with_missing_fields (conn : Socket) (st : Server) :
  (∀ data : gmap string string, data !! "user" = None →
     broadcasts (trace (on_request_updateusername conn data st)) = [] ∧
     post (on_request_updateusername conn data st) = st ∧
     result (on_request_updateusername conn data st) = Ret tt) ∧
  (socket_id conn ∈ registry st →
   ∀ data : gmap string Value,
     let c := socket_id conn in
     let run := on_request_chatmessage conn data st in
     (data !! "message" = None →
        broadcasts (trace run) =
          [Broadcast To c
             (SystemText "error: invalid client command format; message field empty") [c]] ∧
        post run = st) ∧
     (∀ v, data !! "message" = Some v → (∀ s, v ≠ VString s) →
        broadcasts (trace run) =
          [Broadcast To c
             (SystemText "error: client command parse error; unable to cast message to string")
             [c]] ∧
        post run = st)).
Proof.
  split.
  - intros data Hdata. unfold on_request_updateusername. rewrite Hdata. auto.
  - intros Hc data c run. subst c run. unfold on_request_chatmessage.
    split.
    + intros Hmsg.
      destruct (data !! "user");
        (erewrite bind_ret by reflexivity);
        (erewrite bind_ret by now apply GetClient_registered);
        unfold lift, ParseCommandMessage; rewrite Hmsg; auto.
    + intros v Hmsg Hv.
      destruct (data !! "user");
        (erewrite bind_ret by reflexivity);
        (erewrite bind_ret by now apply GetClient_registered);
        unfold lift, ParseCommandMessage; rewrite Hmsg;
        (destruct v as [s| | |]; [now destruct (Hv s) | auto ..]).
Qed.

(** X4: a resync request of a registered client whose room has a playback
    state is answered with one [streamsync] carrying the snapshot of that
    state, delivered to the requester alone, and leaves the stores as they
    are; a request of a client without room is only logged. *)
Theorem streamsync_request_answered (conn : Socket) (data : gmap string Value) (st : Server)
        (x : Client) :
  registered st (socket_id conn) x →
  let c := socket_id conn in
  let run := on_request_streamsync conn data st in
  (∀ r pb, client_room x = Some r → playbacks st !! r = Some pb →
     run = mkRun st
             [Log INFO "SOCKET CLIENT client requested a streamsync";
              Broadcast To c
                (Event "streamsync"
                   (mkResponse (client_id x) "" (ExtraStatus (statusOf pb)) false)) [c]]
             (Ret tt)) ∧
  (client_room x = None →
     run = mkRun st
             [Log INFO "SOCKET CLIENT client requested a streamsync";
              Log ERR "SOCKET CLIENT client has no room association. Ignoring streamsync request."]
             (Ret tt)).
Proof.
  intros Hreg c run. subst c run. split.
  - intros r pb Hr Hpb. rewrite (on_request_streamsync_run conn data st x r Hreg Hr).
    now rewrite Hpb.
  - intros Hr. destruct Hreg as [Hc Hx]. unfold on_request_streamsync.
    erewrite bind_ret by reflexivity.
    erewrite bind_ret by now apply GetClient_registered.
    unfold_ops. mrun. rewrite Hr. reflexivity.
Qed.

(** X5: whatever events the listeners have served, no two registered
    clients hold the same username, provided the commands keep the stores in
    order. *)
Theorem usernames_stay_unique (evs : list Incoming) (st : Server) :
  (∀ name args c st0, c ∈ registry st0 → stores_ok st0 →
                      stores_ok (post (ExecuteCommand name args c st0))) →
  stores_ok st →
  unique_usernames (serveAll evs st).
Proof. intros Hexec Hok. apply (stores_ok_serveAll evs st Hexec Hok). Qed.

(** X6: whatever events the listeners have served, every playback state has
    exactly one tick listener, the resync listener of its own room, provided
    the commands keep the stores in order. *)
Theorem playbacks_keep_one_listener (evs : list Incoming) (st : Server) :
  (∀ name args c st0, c ∈ registry st0 → stores_ok st0 →
                      stores_ok (post (ExecuteCommand name args c st0))) →
  stores_ok st →
  one_listener (serveAll evs st).
Proof. intros Hexec Hok. apply (stores_ok_serveAll evs st Hexec Hok). Qed.

(** X7: whatever events the listeners have served, the resync request of
    any registered client finds the playback state of the client's room and
    is answered with its snapshot, to the requester alone, provided the
    commands keep the stores in order. *)
Theorem streamsync_request_always_answered (evs : list Incoming) (st : Server)
        (conn : Socket) (data : gmap string Value) :
  (∀ name args c st0, c ∈ registry st0 → stores_ok st0 →
                      stores_ok (post (ExecuteCommand name args c st0))) →
  stores_ok st →
  socket_id conn ∈ registry (serveAll evs st) →
  ∃ x r pb,
    registered (serveAll evs st) (socket_id conn) x ∧
    client_room x = Some r ∧
    playbacks (serveAll evs st) !! r = Some pb ∧
    on_request_streamsync conn data (serveAll evs st) =
      mkRun (serveAll evs st)
        [Log INFO "SOCKET CLIENT client requested a streamsync";
         Broadcast To (socket_id conn)
           (Event "streamsync" (mkResponse (client_id x) "" (ExtraStatus (statusOf pb)) false))
           [socket_id conn]]
        (Ret tt).
Proof.
  intros Hexec Hok Hc.
  destruct (stores_ok_serveAll evs st Hexec Hok) as (Hsound & _ & _ & Hrooms).
  destruct (Hsound _ Hc) as [x Hx].
  destruct (Hrooms _ x (conj Hc Hx)) as (r & Hr & [pb Hpb]).
  exists x, r, pb. split; [now split|]. split; [exact Hr|]. split; [exact Hpb|].
  rewrite (on_request_streamsync_run conn data _ x r (conj Hc Hx) Hr). now rewrite Hpb.
Qed.

(** X8: on a tick whose position is 0 modulo 30, the resync listener of a
    room whose playback state is gone logs the error and goes on all the
    same: it takes the status of the missing playback state, and panics there
    or broadcasts a [streamsync] made from it to the room of its client. *)
Theorem resync_listener_without_playback_state (roomName c : string) (currentTime : Z)
        (st : Server) (x : Client) (r : string) :
  playbacks st !! roomName = None →
  objects st !! c = Some x →
  client_room x = Some r →
  (currentTime mod 30 = 0)%Z →
  let missing :=
    [Log ERR "CALLBACK-PLAYBACK SOCKET CLIENT attempted to send streamsync event to client, but stream playback does not exist.";
     Log INFO "CALLBACK-PLAYBACK SOCKET CLIENT streamsync event sent"] in
  runTick (StreamsyncTick roomName c) currentTime st =
    match GetStatus_nil with
    | Ret s =>
        mkRun st
          (missing ++
           [Broadcast All c (Event "streamsync" (mkResponse c "" (ExtraStatus s) false))
              (in_room st r)])
          (Ret tt)
    | Panic msg => mkRun st missing (Panic msg)
    end.
Proof.
  intros Hpb Hx Hr Hmod. apply rem_zero_iff_mod_zero in Hmod. cbv zeta. unfold runTick.
  rewrite Hmod. cbn [Z.eqb negb]. unfold GetStatus. unfold_ops. mrun.
  destruct GetStatus_nil; mrun; [rewrite Hr|]; now destruct st.
Qed.

(** X9: the [info_clientjoined] of a registration is delivered exactly to
    the clients that were registered in the joined room before, the joining
    connection itself left out, and to each of them once. *)
Theorem clientjoined_goes_to_the_room (conn : Socket) (st : Server) :
  let id := socket_id conn in
  let r := roomOf (socket_request conn) in
  ∃ rs,
    broadcasts (trace (RegisterClient conn st)) =
      Broadcast From_ id (Event "info_clientjoined" (mkResponse id "" NoExtra false)) rs
      :: match playbacks st !! r with
         | Some pb =>
             match pb_stream pb with
             | Some pStream =>
                 [Broadcast To id
                    (Event "streamload"
                       (mkResponse id "" (ExtraInfo (stream_info pStream)) false)) [id]]
             | None => []
             end
         | None => []
         end ∧
    NoDup rs ∧
    ∀ c, c ∈ rs ↔ c ≠ id ∧ c ∈ registry st ∧ client_room <$> objects st !! c = Some (Some r).
Proof.
  only_stated. cbv zeta. rewrite RegisterClient_run. cbn [trace].
  eexists. split; [|split].
  - cbn [broadcasts]. rewrite broadcasts_app.
    replace (broadcasts match GetRoomNameFromRequest (socket_request conn) with
                        | inl _ => []
                        | inr _ => _
                        end) with (@nil Effect)
      by now destruct (GetRoomNameFromRequest (socket_request conn)).
    cbn [app broadcasts]. f_equal.
    destruct (playbacks st !! _) as [pb|]; [|reflexivity].
    cbn [broadcasts]. now destruct (pb_stream pb).
  - apply NoDup_filter. unfold in_room. apply NoDup_filter. apply NoDup_elements.
  - intros c. unfold in_room. rewrite !list_elem_of_filter, elem_of_elements. cbn.
    split.
    + intros (Hne & Hroom & Hc). rewrite lookup_insert_ne in Hroom by congruence.
      split; [exact Hne|]. split; [|exact Hroom].
      apply elem_of_union in Hc as [Hc|Hc]; [|exact Hc].
      apply elem_of_singleton in Hc. congruence.
    + intros (Hne & Hc & Hroom). split; [exact Hne|].
      rewrite lookup_insert_ne by congruence. split; [exact Hroom|].
      apply elem_of_union. now right.
Qed.

(** X10: a room outlives its clients.  After a connection has been
    registered and has disconnected again, the registry is what it was
    before except for that connection, and the playback state of the room is
    still there, as the registration left or found it. *)
Theorem room_outlives_its_clients (conn : Socket) (st : Server) :
  let r := roomOf (socket_request conn) in
  let joined := post (HandleClientConnection conn st) in
  let left_ := post (on_disconnection conn joined) in
  (∀ c, c ∈ registry left_ ↔ c ∈ registry st ∧ c ≠ socket_id conn) ∧
  playbacks left_ = playbacks joined ∧
  is_Some (playbacks left_ !! r) ∧
  (playbacks st !! r = None →
     pb_callbacks <$> playbacks left_ !! r = Some [StreamsyncTick r (socket_id conn)]).
Proof.
  only_stated. cbv zeta. destruct (HandleClientConnection_post conn st) as [-> _].
  pose proof (RegisterClient_registered conn st) as Hreg.
  pose proof (RegisterClient_playback conn st) as Hpb.
  rewrite (on_disconnection_run conn _ _ Hreg). cbn [post registry playbacks].
  split; [|split; [reflexivity|split; [exact Hpb|]]].
  - intros c. rewrite RegisterClient_post. cbn.
    rewrite elem_of_difference, elem_of_union, elem_of_singleton.
    split; [intros [[->|Hc] Hne]; [contradiction | auto] | intros [Hc Hne]; auto].
  - intros Hnone. rewrite RegisterClient_post. cbn. rewrite Hnone.
    now rewrite lookup_insert_eq.
Qed.

(** X11: a failed username update notifies nobody and changes nothing: when
    [UpdateClientUsername] returns an error, it has sent no event and the
    stores are as before. *)
Theorem failed_update_is_silent (c n : string) (st : Server) (x : Client) (err : error) :
  objects st !! c = Some x →
  registry_sound st →
  result (UpdateClientUsername c n st) = Ret (Some err) →
  broadcasts (trace (UpdateClientUsername c n st)) = [] ∧
  post (UpdateClientUsername c n st) = st.
Proof.
  intros Hx Hsound. destruct (UpdateClientUsername_run c n st x Hx Hsound) as (taken & _ & ->).
  destruct (ValidateClientUsername n); [auto|].
  destruct (decide (client_username x = Some n)); [auto|].
  destruct taken; [auto|].
  destruct (UpdateUsername_refuses n); [auto | discriminate].
Qed.

(** X12: what [ParseCommandMessage] returns hangs together.  It reports a
    command exactly for a string message that begins with [/], and the
    command text is then the message without that first byte; with an error
    or without a command the command text is empty, and an error is never
    paired with the command flag. *)
Theorem ParseCommandMessage_results (c : string) (data : gmap string Value) :
  (∀ command, ParseCommandMessage c data = Ret (None, command, true)
              ↔ data !! "message" = Some (VString ("/" +:+ command))) ∧
  (∀ err command isCommand,
     ParseCommandMessage c data = Ret (err, command, isCommand) →
     (isCommand = false → command = "") ∧ (is_Some err → isCommand = false)).
Proof.
  only_stated. unfold ParseCommandMessage. split.
  - intros command. rewrite append_cons, append_empty_l.
    destruct (data !! "message") as [[[|b s]| | |]|]; try (split; discriminate).
    destruct (String.eqb_spec (String b "") "/") as [[= ->]|Hne]; cbn [negb strings.slice_from].
    + split; intros [= ->]; reflexivity.
    + split; [discriminate|]. intros [= -> ->]. congruence.
  - intros err command isCommand.
    destruct (data !! "message") as [[[|b s]| | |]|]; try discriminate;
      try (intros [= <- <- <-]; split; [reflexivity | intros _; reflexivity]).
    destruct (negb _); intros [= <- <- <-];
      (split; [try reflexivity; discriminate | intros [? [=]]]).
Qed.

(** X13: [GetRoomNameFromRequest] fails exactly on the URLs without [/v/],
    and a room name it returns never contains [/v/] itself and stands in the
    URL right behind a [/v/]. *)
Theorem GetRoomNameFromRequest_results (req : Request) :
  ((∃ err, GetRoomNameFromRequest req = inr err) ↔
   ¬ strings.Contains (URL req) ROOM_URL_SEGMENT) ∧
  (∀ name, GetRoomNameFromRequest req = inl name →
     ¬ strings.Contains name ROOM_URL_SEGMENT ∧
     strings.Contains (URL req) (ROOM_URL_SEGMENT +:+ name)).
Proof.
  only_stated. split.
  - split; [|apply GetRoomNameFromRequest_absent].
    intros [err Herr] Hc. destruct (room_segment_exists _ Hc) as [name Hseg].
    rewrite (GetRoomNameFromRequest_segment _ _ Hseg) in Herr. discriminate.
  - intros name Hname.
    destruct (strings.Index (URL req) ROOM_URL_SEGMENT) as [m|] eqn:E.
    2:{ destruct (GetRoomNameFromRequest_absent req (Index_None _ _ E)) as [err Herr].
        congruence. }
    assert (strings.Contains (URL req) ROOM_URL_SEGMENT) as Hc.
    { destruct (Index_Some _ _ _ E) as (p & q & Hurl & _). now exists p, q. }
    destruct (room_segment_exists _ Hc) as [name' Hseg].
    rewrite (GetRoomNameFromRequest_segment _ _ Hseg) in Hname. injection Hname as ->.
    destruct Hseg as (pre & rest & Hurl & _ & [[Hno ->]|[[q Hq] Hmin]]).
    + split; [exact Hno|]. exists pre, "". now rewrite append_empty_r.
    + split.
      * intros (u & v & Huv).
        assert (rest = u +:+ ROOM_URL_SEGMENT +:+ (v +:+ ROOM_URL_SEGMENT +:+ q)) as Hrest
          by (rewrite Hq, Huv, !append_assoc; reflexivity).
        pose proof (Hmin _ _ Hrest) as Hle. rewrite Huv, !length_append in Hle.
        cbn in Hle. lia.
      * exists pre, (ROOM_URL_SEGMENT +:+ q). now rewrite Hurl, Hq, append_assoc.
Qed.

(** ** The endpoints *)

Lemma first_piece_no_sep (s sep : string) (m : nat) :
  sep ≠ "" → strings.Index s sep = Some m → ¬ strings.Contains (strings.slice_to m s) sep.
Proof.
  only_stated. intros Hsep E (p & q & Hpq). pose proof (length_sep_pos _ Hsep) as Hpos.
  destruct (Index_Some _ _ _ E) as (p0 & q0 & Hs & Hlen).
  assert (strings.slice_to m s = p0) as Hp0 by (subst; apply slice_to_append).
  rewrite Hp0 in Hpq. subst p0. rewrite !append_assoc in Hs.
  pose proof (Index_least _ _ _ E _ _ Hs) as Hle.
  rewrite !length_append in Hlen. lia.
Qed.

Lemma Split_byte_cons (c : ascii) (p q : string) :
  ¬ strings.Contains p (String c "") →
  strings.Split (p +:+ String c q) (String c "") = p :: strings.Split q (String c "").
Proof.
  only_stated. intros Hp. rewrite Split_eqn by discriminate.
  rewrite Index_byte by assumption. rewrite slice_to_append. f_equal.
  change (p +:+ String c q) with (p +:+ String c "" +:+ q).
  now rewrite <- append_assoc, <- length_append, slice_from_append.
Qed.

Lemma count_byte_append (c : ascii) (a b : string) :
  endpoint.count_byte c (a +:+ b) = (endpoint.count_byte c a + endpoint.count_byte c b)%nat.
Proof.
  only_stated. induction a as [|x a IH]; [reflexivity|].
  rewrite append_cons. cbn [endpoint.count_byte]. rewrite IH. lia.
Qed.

Lemma count_byte_none (c : ascii) (s : string) :
  strings.Index s (String c "") = None → endpoint.count_byte c s = 0%nat.
Proof.
  only_stated. induction s as [|a s IH]; [reflexivity|].
  cbn [strings.Index strings.HasPrefix endpoint.count_byte].
  rewrite andb_true_r. rewrite (Ascii.eqb_sym c a).
  destruct (Ascii.eqb a c); [discriminate|].
  destruct (strings.Index s (String c "")); [discriminate|]. intros _. now rewrite IH.
Qed.

Lemma Split_byte_length (c : ascii) (s : string) :
  length (strings.Split s (String c "")) = S (endpoint.count_byte c s).
Proof.
  only_stated.
  apply (Split_ind (String c "") (λ s l, length l = S (endpoint.count_byte c s)));
    [discriminate| |].
  - intros s0 E. cbn. now rewrite count_byte_none.
  - intros s0 m E rest IH. cbn [length]. rewrite IH.
    destruct (Index_Some_FirstAfter _ _ _ E) as [_ Hs0]. fold rest in Hs0.
    rewrite (f_equal (endpoint.count_byte c) Hs0). rewrite !count_byte_append.
    rewrite (count_byte_none c (strings.slice_to m s0)).
    + cbn. rewrite Ascii.eqb_refl. lia.
    + apply Index_not_Contains. now apply first_piece_no_sep.
Qed.

(** X14: the permalink of a stream request keeps its slashes.  For a URL
    of three slash-free parts followed by [/stream/] and any text,
    [SoundCloudEndpoint.Handle] cuts the URL at every [/] and joins the
    pieces behind [stream] again: the stream is resolved for exactly the text
    behind [/stream/]. *)
Theorem soundcloud_stream_permalink_round_trip (segments : list string)
        (x0 x1 x2 rest : string) :
  (2 ≤ length segments)%nat →
  Forall (λ p, ¬ strings.Contains p "/") [x0; x1; x2] →
  endpoint.SoundCloudEndpoint_Handle segments
    (x0 +:+ "/" +:+ x1 +:+ "/" +:+ x2 +:+ "/stream/" +:+ rest)
  = Ret (endpoint.SoundCloudApiStream rest).
Proof.
  only_stated. intros Hlen Hall.
  apply Forall_cons in Hall as [H0 Hall]. apply Forall_cons in Hall as [H1 Hall].
  apply Forall_cons in Hall as [H2 _].
  unfold endpoint.SoundCloudEndpoint_Handle.
  destruct (Nat.ltb_spec (length segments) 2) as [?|_]; [lia|].
  change (x0 +:+ "/" +:+ x1 +:+ "/" +:+ x2 +:+ "/stream/" +:+ rest)
    with (x0 +:+ String "/" (x1 +:+ String "/" (x2 +:+ String "/" ("stream" +:+ String "/" rest)))).
  rewrite !(Split_byte_cons "/"%char) by (assumption || (apply Index_None; reflexivity)).
  pose proof (Split_nonempty rest "/" ltac:(discriminate)) as Hne.
  pose proof (Join_Split rest "/" ltac:(discriminate)) as Hjoin.
  destruct (strings.Split rest "/") as [|y ys]; [congruence|].
  cbn. cbn in Hjoin. now rewrite Hjoin.
Qed.

(** X15: the term of a search request ends at the next slash.  For a URL
    of three slash-free parts followed by [/search/] and any text,
    [SoundCloudEndpoint.Handle] searches for the text behind [/search/] up
    to its first [/], whatever follows. *)
Theorem soundcloud_search_term_cut_at_slash (segments : list string)
        (x0 x1 x2 rest : string) :
  (2 ≤ length segments)%nat →
  Forall (λ p, ¬ strings.Contains p "/") [x0; x1; x2] →
  ∃ term,
    endpoint.SoundCloudEndpoint_Handle segments
      (x0 +:+ "/" +:+ x1 +:+ "/" +:+ x2 +:+ "/search/" +:+ rest)
    = Ret (endpoint.SoundCloudApiSearch term) ∧
    ¬ strings.Contains term "/" ∧
    (rest = term ∨ ∃ more, rest = term +:+ "/" +:+ more).
Proof.
  only_stated. intros Hlen Hall.
  apply Forall_cons in Hall as [H0 Hall]. apply Forall_cons in Hall as [H1 Hall].
  apply Forall_cons in Hall as [H2 _].
  unfold endpoint.SoundCloudEndpoint_Handle.
  destruct (Nat.ltb_spec (length segments) 2) as [?|_]; [lia|].
  change (x0 +:+ "/" +:+ x1 +:+ "/" +:+ x2 +:+ "/search/" +:+ rest)
    with (x0 +:+ String "/" (x1 +:+ String "/" (x2 +:+ String "/" ("search" +:+ String "/" rest)))).
  rewrite !(Split_byte_cons "/"%char) by (assumption || (apply Index_None; reflexivity)).
  rewrite (Split_eqn rest) by discriminate.
  destruct (strings.Index rest "/") as [m|] eqn:E.
  - exists (strings.slice_to m rest). split; [reflexivity|].
    split; [now apply first_piece_no_sep|]. right.
    destruct (Index_Some_FirstAfter _ _ _ E) as [_ Hrest]. eauto.
  - exists rest. split; [reflexivity|]. split; [now apply Index_None | now left].
Qed.

(** X16: the guard of [SoundCloudEndpoint.Handle] looks at the routed
    segments, but the handler then indexes the pieces of the URL: with two
    or more routed segments it panics exactly when the URL has fewer than
    three slashes. *)
Theorem soundcloud_handle_panics_on_short_url (segments : list string) (url : string) :
  (2 ≤ length segments)%nat →
  ((∃ msg, endpoint.SoundCloudEndpoint_Handle segments url = Panic msg) ↔
   (endpoint.count_byte "/" url < 3)%nat).
Proof.
  only_stated. intros Hlen. unfold endpoint.SoundCloudEndpoint_Handle.
  destruct (Nat.ltb_spec (length segments) 2) as [?|_]; [lia|].
  pose proof (Split_byte_length "/" url) as Hcount.
  destruct (strings.Split url "/") as [|a [|b [|c [|d l]]]]; cbn in Hcount;
    try (split; [intros _; lia | intros _; cbn; eauto]).
  split; [|intros; lia]. intros [msg Hmsg]. exfalso. revert Hmsg. cbn.
  destruct (String.eqb d "search"); [destruct l; discriminate|].
  destruct (String.eqb d "stream"); [destruct l; discriminate|]. discriminate.
Qed.

(** X17: [YoutubeEndpoint.Handle] reads the second routed segment
    unguarded: it panics exactly when there are fewer than two segments, and
    it starts a search exactly when the second segment is [search] and a
    third one exists, which is then the query. *)
Theorem youtube_handle_dispatch (segments : list string) :
  ((∃ msg, endpoint.YoutubeEndpoint_Handle segments = Panic msg) ↔ (length segments < 2)%nat) ∧
  (∀ query, endpoint.YoutubeEndpoint_Handle segments = Ret (endpoint.ApiSearch query) ↔
            segments !! 1%nat = Some "search" ∧ segments !! 2%nat = Some query).
Proof.
  only_stated. unfold endpoint.YoutubeEndpoint_Handle.
  destruct segments as [|a [|b [|c l]]]; cbn.
  - split; [split; [lia | eauto] | intros q; split; [discriminate | intros [[=] _]]].
  - split; [split; [lia | eauto] | intros q; split; [discriminate | intros [[=] _]]].
  - split; [split; [intros [? ?] | lia] | intros q].
    + destruct (String.eqb b "search"); discriminate.
    + destruct (String.eqb b "search"); split; (discriminate || intros [_ [=]]).
  - split; [split; [intros [? ?] | lia] | intros q].
    + destruct (String.eqb b "search"); discriminate.
    + destruct (String.eqb_spec b "search") as [->|Hne].
      * split; [intros [= ->]; auto | intros [_ [= ->]]; reflexivity].
      * split; [discriminate | intros [[= ->] _]; congruence].
Qed.

End Handler.

(** ** The statements on the example server *)

Lemma registered_A : registered server_room_x "A" (mkClient "A" None (Some "x")).
Proof. split; [cbn; set_solver | reflexivity]. Defined.

Lemma registry_sound_room_x : registry_sound server_room_x.
Proof.
  intros c Hc. cbn in Hc. apply elem_of_union in Hc as [Hc|Hc];
    apply elem_of_singleton in Hc; subst c; eexists; reflexivity.
Defined.

Lemma no_space_in (p : string) :
  strings.Index p " " = None → ¬ strings.Contains p " ".
Proof. apply Index_None. Defined.

Lemma C1_detect_witness :
  Forall (λ p, ¬ strings.Contains p " ") ["seek"; "5"] ∧
  detect (chat "/seek 5") = Ret (Command "seek" ["5"]).
Proof.
  assert (Forall (λ p, ¬ strings.Contains p " ") ["seek"; "5"]) as H
    by (repeat constructor; apply no_space_in; reflexivity).
  split; [exact H|].
  exact (proj1 (proj2 C1_detect_cut_at_spaces) "seek" ["5"] H).
Defined.

(** C1 as stated fails: the message ["/"] is detected as a command with the
    empty name, where the specification has a format error; and a second
    space in a row gives an empty argument, where splitting on whitespace
    gives none. *)
Lemma C1_detect_counterexample :
  detect (chat "/") = Ret (Command "" []) ∧
  spec_detect "/" = ParseError "invalid command format" ∧
  detect (chat "/seek  5") = Ret (Command "seek" [""; "5"]) ∧
  spec_detect "/seek  5" = Command "seek" ["5"].
Proof. repeat split; vm_compute; reflexivity. Qed.

Lemma C3_resync_witness :
  playbacks server_room_x !! "x" = Some (mkStreamPlayback None 0 false [StreamsyncTick "x" "A"]) ∧
  objects server_room_x !! "A" = Some (mkClient "A" None (Some "x")) ∧
  broadcasts (trace (runTick (Panic "nil") (StreamsyncTick "x" "A") 60 server_room_x)) =
    [Broadcast All "A"
       (Event "streamsync" (mkResponse "A" "" (ExtraStatus (mkStatus None 0 false)) false))
       (in_room server_room_x "x")] ∧
  trace (runTick (Panic "nil") (StreamsyncTick "x" "A") 61 server_room_x) = [].
Proof.
  split; [reflexivity|]. split; [reflexivity|]. split.
  - apply (C3_resync_every_30_ticks (Panic "nil") "x" "A" 60 server_room_x
             (mkStreamPlayback None 0 false [StreamsyncTick "x" "A"])
             (mkClient "A" None (Some "x")) "x"); reflexivity.
  - apply (C3_resync_every_30_ticks (Panic "nil") "x" "A" 61 server_room_x
             (mkStreamPlayback None 0 false [StreamsyncTick "x" "A"])
             (mkClient "A" None (Some "x")) "x"); (reflexivity || discriminate).
Defined.

Lemma C4_username_witness :
  objects server_room_x !! "A" = Some (mkClient "A" None (Some "x")) ∧
  registry_sound server_room_x ∧
  let run := UpdateClientUsername accept_any accept_any "A" "bob" server_room_x in
  result run = Ret None ∧
  result (UpdateClientUsername accept_any accept_any "B" "bob" (post run)) =
    Ret (Some (Errorf "error: the username %q is taken" ["bob"])).
Proof.
  split; [reflexivity|]. split; [exact registry_sound_room_x|].
  destruct (C4_UpdateClientUsername_outcomes accept_any accept_any "A" "bob" server_room_x
              (mkClient "A" None (Some "x")) eq_refl registry_sound_room_x)
    as (_ & _ & _ & _ & Hnext).
  assert (result (UpdateClientUsername accept_any accept_any "A" "bob" server_room_x) = Ret None)
    as Hok by (vm_compute; reflexivity).
  split; [exact Hok|].
  apply (Hnext "B" (mkClient "B" None (Some "x"))).
  - cbn; set_solver.
  - split; [cbn; set_solver | reflexivity].
  - discriminate.
  - exact Hok.
Defined.

Lemma C5_tick_listener_witness :
  Forall (λ conn, roomOf (socket_request conn) = "x") [socket_A; socket_B] ∧
  pb_callbacks <$> playbacks (post (connectAll [socket_A; socket_B] server_empty)) !! "x" =
    Some [StreamsyncTick "x" "A"].
Proof.
  assert (Forall (λ conn, roomOf (socket_request conn) = "x") [socket_A; socket_B]) as H
    by (repeat constructor).
  split; [exact H|].
  exact (proj2 (C5_tick_listener_registered_once [socket_A; socket_B] server_empty "x" H)).
Defined.

Lemma C6_streamload_witness :
  playbacks server_streaming !! "x" = Some playback_streaming ∧
  receives (trace (RegisterClient socket_B server_streaming)) "B" "streamload" ∧
  ¬ receives (trace (RegisterClient socket_A server_empty)) "A" "streamload".
Proof.
  split; [reflexivity|]. split.
  - apply (proj1 (C6_streamload_catch_up socket_B server_streaming) playback_streaming);
      [reflexivity | eexists; reflexivity].
  - apply (proj1 (proj2 (C6_streamload_catch_up socket_A server_empty))). reflexivity.
Defined.

Lemma C7_chat_witness :
  registered server_room_x "A" (mkClient "A" None (Some "x")) ∧
  broadcasts (trace (on_request_chatmessage unknown_command plain_response socket_A
                       (chat "hello there") server_room_x)) =
    [Broadcast All "A" (Event "chatmessage" (plain_response (chat "hello there")))
       (in_room server_room_x "x")] ∧
  broadcasts (trace (on_request_chatmessage unknown_command plain_response socket_A
                       (chat "/pause") server_room_x)) =
    [Broadcast To "A" (SystemText (Errorf "error: unknown command %q" ["pause"])) ["A"]] ∧
  pb_time <$> playbacks (post (on_request_chatmessage seek_command plain_response socket_A
                                 (chat "/seek 99") server_room_x)) !! "x" = Some 99%Z.
Proof.
  split; [exact registered_A|]. split; [|split].
  - apply (proj2 (C7_chat_message_dispatch unknown_command plain_response socket_A
                    (chat "hello there") server_room_x _ registered_A));
      reflexivity.
  - apply (proj1 (C7_chat_message_dispatch unknown_command plain_response socket_A
                    (chat "/pause") server_room_x _ registered_A) "pause" []).
    reflexivity.
  - rewrite (proj1 (proj1 (C7_chat_message_dispatch seek_command plain_response socket_A
                             (chat "/seek 99") server_room_x _ registered_A)
                      "seek" ["99"] eq_refl)).
    reflexivity.
Defined.

(** C7 as stated fails: client A of room ["x"] sends the command
    ["/seek 99"], the command tells the room through the client it is
    handed, and the other client B of the room is reached by that event. *)
Lemma C7_chat_counterexample :
  registered server_room_x "A" (mkClient "A" None (Some "x")) ∧
  detect (chat "/seek 99") = Ret (Command "seek" ["99"]) ∧
  broadcasts (trace (on_request_chatmessage seek_command plain_response socket_A
                       (chat "/seek 99") server_room_x)) =
    [Broadcast All "A" (Event "streamsync" (mkResponse "A" "" NoExtra false)) ["A"; "B"];
     Broadcast To "A" (SystemText "position set") ["A"]] ∧
  reached (trace (on_request_chatmessage seek_command plain_response socket_A
                    (chat "/seek 99") server_room_x)) "B".
Proof.
  split; [exact registered_A|]. split; [reflexivity|]. split; [reflexivity|].
  exists All, "A", (Event "streamsync" (mkResponse "A" "" NoExtra false)), ["A"; "B"].
  split; [vm_compute; set_solver | set_solver].
Qed.

Lemma C8_room_witness :
  room_segment "http://localhost:8080/v/x" "x" ∧
  client_room <$> objects (post (RegisterClient socket_A server_empty)) !! "A" = Some (Some "x").
Proof.
  assert (room_segment "http://localhost:8080/v/x" "x") as H.
  { exists "http://localhost:8080", "x". split; [reflexivity|]. split.
    - apply (Index_Some_FirstAfter "http://localhost:8080/v/x" "/v/" 21). reflexivity.
    - left. split; [apply Index_None; reflexivity | reflexivity]. }
  split; [exact H|].
  exact (proj1 (proj2 (C8_room_from_url_segment socket_A server_empty)) "x" H).
Defined.

Lemma C9_username_events_witness :
  registered server_room_x "A" (mkClient "A" None (Some "x")) ∧
  registry_sound server_room_x ∧
  broadcasts (trace (on_request_updateusername accept_any accept_any (Ret tt) socket_A
                       {[ "user" := "bob" ]} server_room_x)) =
    [Broadcast To "A" (Event "updateusername" (mkResponse "" "bob" NoExtra false)) ["A"];
     Broadcast From_ "A"
       (Event "info_updateusername"
          (mkResponse "A" "bob"
             (ExtraFields (<["oldUser" := VString ""]> (<["isNewUser" := VString "true"]> ∅)))
             true))
       (filter (λ id, id ≠ "A") (in_room server_room_x "x"))].
Proof.
  split; [exact registered_A|]. split; [exact registry_sound_room_x|].
  assert (({[ "user" := "bob" ]} : gmap string string) !! "user" = Some "bob") as Huser
    by reflexivity.
  apply (proj1 (C9_username_change_events accept_any accept_any (Ret tt) socket_A
                  {[ "user" := "bob" ]} "bob" server_room_x (mkClient "A" None (Some "x")) "x"
                  registered_A registry_sound_room_x Huser eq_refl)).
  vm_compute. reflexivity.
Defined.

(** The two updates to ["bob"], run: A gets the name, B is refused, and in
    room ["x"] only B is told of A's new name. *)
Example username_bob_then_taken :
  let run := UpdateClientUsername accept_any accept_any "A" "bob" server_room_x in
  let run2 := UpdateClientUsername accept_any accept_any "B" "bob" (post run) in
  result run = Ret None ∧
  broadcasts (trace run) =
    [Broadcast To "A" (Event "updateusername" (mkResponse "" "bob" NoExtra false)) ["A"];
     Broadcast From_ "A"
       (Event "info_updateusername"
          (mkResponse "A" "bob"
             (ExtraFields (<["oldUser" := VString ""]> (<["isNewUser" := VString "true"]> ∅)))
             true))
       ["B"]] ∧
  result run2 = Ret (Some (Errorf "error: the username %q is taken" ["bob"])) ∧
  client_username <$> objects (post run2) !! "A" = Some (Some "bob").
Proof. vm_compute. repeat split; reflexivity. Qed.

(** ** The further properties on the example server *)

Lemma unknown_command_keeps_stores (name : string) (args : list string) (c : string)
      (st0 : Server) :
  c ∈ registry st0 → stores_ok st0 → stores_ok (post (unknown_command name args c st0)).
Proof. intros _ H. exact H. Defined.

Lemma socket_Z_unknown : socket_id socket_Z ∉ registry server_room_x.
Proof.
  cbn. intros H. apply elem_of_union in H as [H|H]; apply elem_of_singleton in H; discriminate.
Defined.

Lemma no_slash_in (p : string) :
  strings.Index p "/" = None → ¬ strings.Contains p "/".
Proof. apply Index_None. Defined.

Lemma disconnection_witness :
  registered server_room_x "A" (mkClient "A" None (Some "x")) ∧
  result (on_disconnection socket_A server_room_x) = Ret tt ∧
  playbacks (post (on_disconnection socket_A server_room_x)) = playbacks server_room_x.
Proof.
  split; [exact registered_A|].
  destruct (disconnection_unregisters_and_notifies socket_A server_room_x _ registered_A)
    as (Hres & _ & Hpb & _).
  split; [exact Hres | exact Hpb].
Defined.

Lemma unknown_connection_witness :
  socket_id socket_Z ∉ registry server_room_x ∧
  post (serve accept_any accept_any unknown_command plain_response (Panic "nil") (Ret tt)
          (RequestChatMessage socket_Z (chat "hello there")) server_room_x) = server_room_x.
Proof.
  split; [exact socket_Z_unknown|].
  exact (proj1 (unknown_connection_is_ignored accept_any accept_any unknown_command
                  plain_response (Panic "nil") (Ret tt)
                  (RequestChatMessage socket_Z (chat "hello there")) server_room_x
                  socket_Z_unknown eq_refl)).
Defined.

Lemma missing_fields_witness :
  socket_id socket_A ∈ registry server_room_x ∧
  broadcasts (trace (on_request_chatmessage unknown_command plain_response socket_A ∅
                       server_room_x)) =
    [Broadcast To "A"
       (SystemText "error: invalid client command format; message field empty") ["A"]].
Proof.
  split; [exact (proj1 registered_A)|].
  apply (proj2 (payloads_with_missing_fields accept_any accept_any unknown_command
                  plain_response (Ret tt) socket_A server_room_x)
           (proj1 registered_A) ∅).
  reflexivity.
Defined.

Lemma streamsync_answered_witness :
  registered server_room_x "A" (mkClient "A" None (Some "x")) ∧
  on_request_streamsync (Panic "nil") socket_A ∅ server_room_x =
    mkRun server_room_x
      [Log INFO "SOCKET CLIENT client requested a streamsync";
       Broadcast To "A"
         (Event "streamsync" (mkResponse "A" "" (ExtraStatus (mkStatus None 0 false)) false))
         ["A"]]
      (Ret tt).
Proof.
  split; [exact registered_A|].
  apply (proj1 (streamsync_request_answered (Panic "nil") socket_A ∅ server_room_x _
                  registered_A) "x" (mkStreamPlayback None 0 false [StreamsyncTick "x" "A"]));
    reflexivity.
Defined.

Lemma usernames_unique_witness :
  stores_ok server_empty ∧
  unique_usernames
    (serveAll accept_any accept_any unknown_command plain_response (Panic "nil") (Ret tt)
       [Connection socket_A; RequestUpdateUsername socket_A {[ "user" := "bob" ]};
        Connection socket_B; RequestUpdateUsername socket_B {[ "user" := "bob" ]}]
       server_empty).
Proof.
  split; [exact stores_ok_empty|].
  apply usernames_stay_unique; [exact unknown_command_keeps_stores | exact stores_ok_empty].
Defined.

Lemma one_listener_witness :
  stores_ok server_empty ∧
  one_listener
    (serveAll accept_any accept_any unknown_command plain_response (Panic "nil") (Ret tt)
       [Connection socket_A; Disconnection socket_A; Connection socket_B] server_empty).
Proof.
  split; [exact stores_ok_empty|].
  apply playbacks_keep_one_listener; [exact unknown_command_keeps_stores | exact stores_ok_empty].
Defined.

Lemma streamsync_always_answered_witness :
  stores_ok server_empty ∧
  ∃ x r pb,
    let st := serveAll accept_any accept_any unknown_command plain_response (Panic "nil")
                (Ret tt) [Connection socket_A; Disconnection socket_A; Connection socket_B]
                server_empty in
    registered st "B" x ∧ client_room x = Some r ∧ playbacks st !! r = Some pb ∧
    on_request_streamsync (Panic "nil") socket_B ∅ st =
      mkRun st
        [Log INFO "SOCKET CLIENT client requested a streamsync";
         Broadcast To "B"
           (Event "streamsync" (mkResponse (client_id x) "" (ExtraStatus (statusOf pb)) false))
           ["B"]]
        (Ret tt).
Proof.
  split; [exact stores_ok_empty|].
  apply (streamsync_request_always_answered accept_any accept_any unknown_command
           plain_response (Panic "nil") (Ret tt)
           [Connection socket_A; Disconnection socket_A; Connection socket_B] server_empty
           socket_B ∅ unknown_command_keeps_stores stores_ok_empty).
  vm_compute. set_solver.
Defined.

Lemma resync_without_playback_witness :
  playbacks server_no_playback !! "x" = None ∧
  runTick (Panic "nil") (StreamsyncTick "x" "A") 60 server_no_playback =
    mkRun server_no_playback
      [Log ERR "CALLBACK-PLAYBACK SOCKET CLIENT attempted to send streamsync event to client, but stream playback does not exist.";
       Log INFO "CALLBACK-PLAYBACK SOCKET CLIENT streamsync event sent"]
      (Panic "nil").
Proof.
  split; [reflexivity|].
  apply (resync_listener_without_playback_state (Panic "nil") "x" "A" 60 server_no_playback
           (mkClient "A" None (Some "x")) "x"); reflexivity.
Defined.

Lemma room_outlives_witness :
  playbacks server_empty !! "x" = None ∧
  pb_callbacks <$>
    playbacks (post (on_disconnection socket_A (post (HandleClientConnection socket_A server_empty))))
      !! "x" = Some [StreamsyncTick "x" "A"].
Proof.
  split; [reflexivity|].
  apply (proj2 (proj2 (proj2 (room_outlives_its_clients socket_A server_empty)))).
  reflexivity.
Defined.

Lemma failed_update_witness :
  objects server_room_x !! "A" = Some (mkClient "A" None (Some "x")) ∧
  registry_sound server_room_x ∧
  result (UpdateClientUsername refuse_any accept_any "A" "bob" server_room_x) =
    Ret (Some "error: invalid username") ∧
  post (UpdateClientUsername refuse_any accept_any "A" "bob" server_room_x) = server_room_x.
Proof.
  split; [reflexivity|]. split; [exact registry_sound_room_x|]. split; [reflexivity|].
  exact (proj2 (failed_update_is_silent refuse_any accept_any "A" "bob" server_room_x
                  (mkClient "A" None (Some "x")) "error: invalid username"
                  eq_refl registry_sound_room_x eq_refl)).
Defined.

Lemma ParseCommandMessage_witness :
  chat "/play now" !! "message" = Some (VString ("/" +:+ "play now")) ∧
  ParseCommandMessage "A" (chat "/play now") = Ret (None, "play now", true).
Proof.
  assert (chat "/play now" !! "message" = Some (VString ("/" +:+ "play now"))) as H
    by reflexivity.
  split; [exact H|].
  exact (proj2 (proj1 (ParseCommandMessage_results "A" (chat "/play now")) "play now") H).
Defined.

Lemma GetRoomNameFromRequest_witness :
  GetRoomNameFromRequest request_x = inl "x" ∧
  ¬ strings.Contains "x" ROOM_URL_SEGMENT.
Proof.
  split; [reflexivity|].
  exact (proj1 (proj2 (GetRoomNameFromRequest_results request_x) "x" eq_refl)).
Defined.

Lemma soundcloud_stream_witness :
  Forall (λ p, ¬ strings.Contains p "/") [""; "api"; "soundcloud"] ∧
  endpoint.SoundCloudEndpoint_Handle ["soundcloud"; "stream"]
    "/api/soundcloud/stream/https://soundcloud.com/artist/track"
  = Ret (endpoint.SoundCloudApiStream "https://soundcloud.com/artist/track").
Proof.
  assert (Forall (λ p, ¬ strings.Contains p "/") [""; "api"; "soundcloud"]) as H
    by (repeat constructor; apply no_slash_in; reflexivity).
  split; [exact H|].
  apply (soundcloud_stream_permalink_round_trip ["soundcloud"; "stream"]
           "" "api" "soundcloud" "https://soundcloud.com/artist/track"); [cbn; lia | exact H].
Defined.

Lemma soundcloud_search_witness :
  Forall (λ p, ¬ strings.Contains p "/") [""; "api"; "soundcloud"] ∧
  ∃ term,
    endpoint.SoundCloudEndpoint_Handle ["soundcloud"; "search"]
      "/api/soundcloud/search/ac/dc"
    = Ret (endpoint.SoundCloudApiSearch term) ∧
    ¬ strings.Contains term "/" ∧
    ("ac/dc" = term ∨ ∃ more, "ac/dc" = term +:+ "/" +:+ more).
Proof.
  assert (Forall (λ p, ¬ strings.Contains p "/") [""; "api"; "soundcloud"]) as H
    by (repeat constructor; apply no_slash_in; reflexivity).
  split; [exact H|].
  apply (soundcloud_search_term_cut_at_slash ["soundcloud"; "search"]
           "" "api" "soundcloud" "ac/dc"); [cbn; lia | exact H].
Defined.

Lemma soundcloud_panic_witness :
  (2 ≤ length ["soundcloud"; "search"])%nat ∧
  ∃ msg, endpoint.SoundCloudEndpoint_Handle ["soundcloud"; "search"] "/soundcloud/search"
         = Panic msg.
Proof.
  assert ((2 ≤ length ["soundcloud"; "search"])%nat) as H by (cbn; lia).
  split; [exact H|].
  apply (proj2 (soundcloud_handle_panics_on_short_url ["soundcloud"; "search"]
                  "/soundcloud/search" H)).
  cbn. lia.
Defined.

